(** * Conflict-resolution scripts of uptime-kuma: a shallow embedding

    Two Node.js scripts are embedded here:

    - [Main]  : the script with the [USE_AI] flag and the 'ours' fallback
                (src/unnamed/part_000);
    - [Extra] : src/extra/resolve-conflict.js, the variant without fallback.

    Both are sequential programs whose only interesting behaviour is the
    order of their calls to the outside (shell commands, file system, two
    HTTP endpoints, the console) and what they do when such a call throws.
    A run is therefore modelled as a function of a [World], which answers
    every outside call, into an outcome and a state holding the trace of
    calls made and the mutable locals of [main]. *)

From Stdlib Require Import List String Ascii NArith ZArith Bool Lia Permutation.
Import ListNotations.
Open Scope string_scope.
Open Scope list_scope.

(** ** JavaScript strings

    A JavaScript string is a sequence of UTF-16 code units. *)

Definition jsstring := list N.

(** A literal of the source whose characters are all ASCII. *)
Definition lit (s : string) : jsstring :=
  map N_of_ascii (list_ascii_of_string s).

Arguments lit : simpl never.

Definition LF : N := 10.

Definition jsstring_dec : forall a b : jsstring, {a = b} + {a <> b} :=
  list_eq_dec N.eq_dec.

(** [a === b] on strings. *)
Definition strictEq (a b : jsstring) : bool :=
  if jsstring_dec a b then true else false.

(** WhiteSpace and LineTerminator code points of ECMAScript, the ones
    [String.prototype.trim] strips. *)
Definition isWhiteSpace (c : N) : bool :=
  (c =? 9)%N || (c =? 10)%N || (c =? 11)%N || (c =? 12)%N || (c =? 13)%N ||
  (c =? 32)%N || (c =? 160)%N || (c =? 5760)%N ||
  ((8192 <=? c)%N && (c <=? 8202)%N) ||
  (c =? 8232)%N || (c =? 8233)%N || (c =? 8239)%N || (c =? 8287)%N ||
  (c =? 12288)%N || (c =? 65279)%N.

Fixpoint trimStart (s : jsstring) : jsstring :=
  match s with
  | c :: s' => if isWhiteSpace c then trimStart s' else s
  | [] => []
  end.

Definition trimEnd (s : jsstring) : jsstring := rev (trimStart (rev s)).

Definition trim (s : jsstring) : jsstring := trimEnd (trimStart s).

(** [s.split(sep)] for a separator of one code unit: never the empty
    array, [""] on the empty string. *)
Fixpoint split (sep : N) (s : jsstring) : list jsstring :=
  match s with
  | [] => [[]]
  | c :: s' =>
      if (c =? sep)%N then [] :: split sep s'
      else match split sep s' with
           | piece :: pieces => (c :: piece) :: pieces
           | [] => [[c]]
           end
  end.

(** [xs.join(sep)]. *)
Fixpoint join (sep : jsstring) (xs : list jsstring) : jsstring :=
  match xs with
  | [] => []
  | [x] => x
  | x :: rest => x ++ sep ++ join sep rest
  end.

(** A string in a boolean position: only the empty string is falsy. *)
Definition truthyString (s : jsstring) : bool :=
  match s with [] => false | _ :: _ => true end.

(** A value that is a string, [undefined] or [null] in a boolean position. *)
Definition truthy (v : option jsstring) : bool :=
  match v with Some s => truthyString s | None => false end.

(** A string, [undefined] or [null] inside a template literal. *)
Definition interpolate (v : option jsstring) : jsstring :=
  match v with Some s => s | None => lit "undefined" end.

(** ** Errors, events and the outside world *)

Record JsError := { name : jsstring; message : jsstring }.

Definition ReferenceError (x : string) : JsError :=
  {| name := lit "ReferenceError"; message := lit x ++ lit " is not defined" |}.

Definition TypeError (msg : string) : JsError :=
  {| name := lit "TypeError"; message := lit msg |}.

(** Every call that leaves the process. *)
Inductive Event :=
| ConsoleLog (msg : jsstring)
| ConsoleError (msg : jsstring) (err : option JsError)
| ExecSync (command : jsstring)
| ReadFile (path : jsstring)
| WriteFile (path content : jsstring)
| CompletionRequest (authorization prompt : jsstring)
| CommentRequest (url authorization body : jsstring).

(** What the completion endpoint answers: the promise rejects (or the
    response has no [data.choices], so that reading it throws), or the
    response carries [data.choices], of which the script reads
    [choices[0].text], a string or nothing. *)
Inductive CompletionResponse :=
| Rejected (e : JsError)
| Choices (texts : list (option jsstring)).

(** The environment of one run.  Every answer may depend on the calls made
    so far. *)
Record World := {
  env_OPENAI_API_KEY : option jsstring;
  env_GITHUB_TOKEN : option jsstring;
  env_PR_NUMBER : option jsstring;
  env_USE_AI : option jsstring;
  env_GITHUB_REPOSITORY : option jsstring;
  (* execSync: the output, or the error thrown on a non-zero exit *)
  shell : list Event -> jsstring -> JsError + jsstring;
  (* fs.readFileSync *)
  fileRead : list Event -> jsstring -> JsError + jsstring;
  (* fs.writeFileSync: the error thrown, if any *)
  fileWrite : list Event -> jsstring -> jsstring -> option JsError;
  (* POST https://api.openai.com/v1/completions *)
  completions : list Event -> jsstring -> CompletionResponse;
  (* POST .../issues/<n>/comments: the error of a rejected promise, if any *)
  comments : list Event -> jsstring -> jsstring -> option JsError
}.

(** ** Report lines

    [successComment] and [failureComment] only ever grow by one of five
    template literals.  They are kept as the sequence of lines appended;
    [render] gives the text of a line, and the text of a comment is its
    heading followed by the texts of its lines. *)

Inductive Line :=
| ResolvedAI (file : jsstring)
| ResolvedOurs (file : jsstring)
| DiffBlock (file diff : jsstring)
| FailedManual (file : jsstring)
| FailedError (file msg : jsstring).

Definition render (l : Line) : jsstring :=
  match l with
  | ResolvedAI file => lit "- `" ++ file ++ lit "` resolved with AI." ++ [LF]
  | ResolvedOurs file =>
      lit "- `" ++ file ++ lit "` resolved with 'ours' strategy." ++ [LF]
  | DiffBlock file diff =>
      lit "<details><summary>Diff for `" ++ file ++ lit "`</summary>" ++
      [LF; LF] ++ lit "```diff" ++ [LF] ++ diff ++ [LF] ++ lit "```" ++ [LF] ++
      lit "</details>" ++ [LF; LF]
  | FailedManual file =>
      lit "- `" ++ file ++ lit "` failed to resolve with traditional methods." ++
      [LF]
  | FailedError file msg =>
      lit "- `" ++ file ++ lit "` failed due to error: " ++ msg ++ [LF]
  end.

Definition renderLines (ls : list Line) : jsstring := List.concat (map render ls).

(** U+2705 and U+274C are one code unit each. *)
Definition successHeading : jsstring :=
  lit "### " ++ [9989%N] ++ lit " Successfully Resolved Files:" ++ [LF; LF].

Definition failureHeading : jsstring :=
  lit "### " ++ [10060%N] ++ lit " Failed to Resolve Files:" ++ [LF; LF].

(** ** The state of a run and the monad of the scripts *)

Record State := {
  trace : list Event;
  successComment : list Line;
  failureComment : list Line
}.

Definition initial : State :=
  {| trace := []; successComment := []; failureComment := [] |}.

(** A computation returns, throws, or ends the process
    ([process.exit], which no [catch] intercepts). *)
Inductive Outcome (A : Type) :=
| Ok (a : A)
| Throw (e : JsError)
| Exited (code : Z).
Arguments Ok {A} a.
Arguments Throw {A} e.
Arguments Exited {A} code.

Definition M (A : Type) : Type := State -> Outcome A * State.

Definition ret {A} (a : A) : M A := fun st => (Ok a, st).

Definition bind {A B} (m : M A) (k : A -> M B) : M B :=
  fun st =>
    match m st with
    | (Ok a, st') => k a st'
    | (Throw e, st') => (Throw e, st')
    | (Exited c, st') => (Exited c, st')
    end.

Definition throw {A} (e : JsError) : M A := fun st => (Throw e, st).

Definition processExit {A} (code : Z) : M A := fun st => (Exited code, st).

Definition tryCatch {A} (body : M A) (handler : JsError -> M A) : M A :=
  fun st =>
    match body st with
    | (Throw e, st') => handler e st'
    | r => r
    end.

Notation "x <- m ;; k" := (bind m (fun x => k))
  (at level 61, m at next level, right associativity).
Notation "m ;;; k" := (bind m (fun _ => k))
  (at level 61, right associativity).

Definition record (ev : Event) (st : State) : State :=
  {| trace := trace st ++ [ev];
     successComment := successComment st;
     failureComment := failureComment st |}.

Definition emit (ev : Event) : M unit := fun st => (Ok tt, record ev st).

Definition consoleLog (msg : jsstring) : M unit := emit (ConsoleLog msg).

Definition consoleError (msg : jsstring) (err : option JsError) : M unit :=
  emit (ConsoleError msg err).

(** [successComment += line] and [failureComment += line]. *)
Definition appendSuccess (l : Line) : M unit :=
  fun st => (Ok tt, {| trace := trace st;
                       successComment := successComment st ++ [l];
                       failureComment := failureComment st |}).

Definition appendFailure (l : Line) : M unit :=
  fun st => (Ok tt, {| trace := trace st;
                       successComment := successComment st;
                       failureComment := failureComment st ++ [l] |}).

(** The outside calls: each is recorded, then answered by the world from
    the calls made before it. *)
Definition execSync (w : World) (command : jsstring) : M jsstring :=
  fun st =>
    match shell w (trace st) command with
    | inr out => (Ok out, record (ExecSync command) st)
    | inl e => (Throw e, record (ExecSync command) st)
    end.

Definition readFileSync (w : World) (path : jsstring) : M jsstring :=
  fun st =>
    match fileRead w (trace st) path with
    | inr content => (Ok content, record (ReadFile path) st)
    | inl e => (Throw e, record (ReadFile path) st)
    end.

Definition writeFileSync (w : World) (path content : jsstring) : M unit :=
  fun st =>
    match fileWrite w (trace st) path content with
    | None => (Ok tt, record (WriteFile path content) st)
    | Some e => (Throw e, record (WriteFile path content) st)
    end.

Definition postCompletions (w : World) (authorization prompt : jsstring)
  : M (list (option jsstring)) :=
  fun st =>
    match completions w (trace st) prompt with
    | Choices texts => (Ok texts, record (CompletionRequest authorization prompt) st)
    | Rejected e => (Throw e, record (CompletionRequest authorization prompt) st)
    end.

Definition postComments (w : World) (url authorization body : jsstring)
  : M unit :=
  fun st =>
    match comments w (trace st) url body with
    | None => (Ok tt, record (CommentRequest url authorization body) st)
    | Some e => (Throw e, record (CommentRequest url authorization body) st)
    end.

(** [for (const x of xs) body(x)]. *)
Fixpoint forOf {A} (xs : list A) (body : A -> M unit) : M unit :=
  match xs with
  | [] => ret tt
  | x :: rest => body x ;;; forOf rest body
  end.

(** ** src/unnamed/part_000: the script with the AI flag and the fallback *)

Module Main.

(** [const USE_AI = process.env.USE_AI === "true"]. *)
Definition USE_AI (w : World) : bool :=
  match env_USE_AI w with
  | Some v => strictEq v (lit "true")
  | None => false
  end.

Definition OPENAI_API_KEY (w : World) : option jsstring := env_OPENAI_API_KEY w.
Definition GITHUB_TOKEN (w : World) : option jsstring := env_GITHUB_TOKEN w.
Definition PR_NUMBER (w : World) : option jsstring := env_PR_NUMBER w.

(** Returns the trimmed output, or [null] ([None]) when the command fails. *)
Definition runCommand (w : World) (command : jsstring) : M (option jsstring) :=
  tryCatch
    (out <- execSync w command ;; ret (Some (trim out)))
    (fun error =>
       consoleError (lit "Error executing command: " ++ command) (Some error) ;;;
       ret None).

Definition listCommand : jsstring := lit "git diff --name-only --diff-filter=U".

Definition getConflictedFiles (w : World) : M (list jsstring) :=
  conflictedFiles <- runCommand w listCommand ;;
  ret (match conflictedFiles with
       | Some s => if truthyString s then split LF s else []
       | None => []
       end).

Definition completionPrompt (fileContent : jsstring) : jsstring :=
  lit "You are a code assistant. Resolve the following Git merge conflict:" ++
  [LF; LF] ++ fileContent.

(** [`Bearer ${OPENAI_API_KEY}`]. *)
Definition completionAuthorization (w : World) : jsstring :=
  lit "Bearer " ++ interpolate (OPENAI_API_KEY w).

(** Returns [response.data.choices[0].text]: reading [text] of a missing
    first choice throws. *)
Definition resolveWithAI (w : World) (filePath : jsstring)
  : M (option jsstring) :=
  fileContent <- readFileSync w filePath ;;
  texts <- postCompletions w (completionAuthorization w)
             (completionPrompt fileContent) ;;
  match texts with
  | text :: _ => ret text
  | [] => throw (TypeError "Cannot read properties of undefined (reading 'text')")
  end.

Definition checkoutOurs (filePath : jsstring) : jsstring :=
  lit "git checkout --ours " ++ filePath.

Definition gitAdd (filePath : jsstring) : jsstring := lit "git add " ++ filePath.

Definition resolveManually (w : World) (filePath : jsstring) : M bool :=
  consoleLog (lit "Resolving conflict manually in " ++ filePath) ;;;
  tryCatch
    (runCommand w (checkoutOurs filePath) ;;;
     runCommand w (gitAdd filePath) ;;;
     consoleLog (lit "Resolved " ++ filePath ++ lit " with 'ours' strategy.") ;;;
     ret true)
    (fun error =>
       consoleError
         (lit "Error resolving " ++ filePath ++ lit " with traditional methods:")
         (Some error) ;;;
       ret false).

Definition getFileDiff (w : World) (filePath : jsstring) : M (option jsstring) :=
  tryCatch
    (runCommand w (lit "git diff --cached " ++ filePath))
    (fun error =>
       consoleError (lit "Error generating diff for " ++ filePath ++ lit ":")
         (Some error) ;;;
       ret None).

Definition commentsUrl (w : World) : jsstring :=
  lit "https://api.github.com/repos/" ++ interpolate (env_GITHUB_REPOSITORY w) ++
  lit "/issues/" ++ interpolate (PR_NUMBER w) ++ lit "/comments".

(** [`Bearer ${GITHUB_TOKEN}`]. *)
Definition commentsAuthorization (w : World) : jsstring :=
  lit "Bearer " ++ interpolate (GITHUB_TOKEN w).

Definition postCommentToPR (w : World) (commentBody : jsstring) : M unit :=
  tryCatch
    (postComments w (commentsUrl w) (commentsAuthorization w) commentBody ;;;
     consoleLog (lit "Comment posted to PR."))
    (fun error => consoleError (lit "Error postig comment to PR:") (Some error)).

(** The [if (USE_AI) { ... }] block of the loop body; its value is the
    [resolved] flag after it. *)
Definition attemptAI (w : World) (file : jsstring) : M bool :=
  consoleLog (lit "Attempting AI resolution for " ++ file ++ lit "...") ;;;
  aiResolvedContent <- resolveWithAI w file ;;
  match aiResolvedContent with
  | Some (c :: content) =>
      writeFileSync w file (c :: content) ;;;
      runCommand w (gitAdd file) ;;;
      appendSuccess (ResolvedAI file) ;;;
      ret true
  | _ =>
      consoleLog (lit "AI resolution failed for " ++ file ++ lit ", falling back...") ;;;
      ret false
  end.

(** One iteration of the loop of [main]. *)
Definition resolveFile (w : World) (file : jsstring) : M unit :=
  tryCatch
    (resolved <- (if USE_AI w then attemptAI w file else ret false) ;;
     (if negb resolved then
        resolved' <- resolveManually w file ;;
        if resolved' then appendSuccess (ResolvedOurs file)
        else appendFailure (FailedManual file)
      else ret tt) ;;;
     diff <- getFileDiff w file ;;
     match diff with
     | Some (c :: d) => appendSuccess (DiffBlock file (c :: d))
     | _ => ret tt
     end)
    (fun error =>
       consoleError (lit "Error resolving " ++ file ++ lit ":") (Some error) ;;;
       appendFailure (FailedError file (message error))).

Definition commitCommand : jsstring :=
  lit "git commit -m 'Auto-resolved conflicts with AI assistance or traditional methods'".

Definition successText (st : State) : jsstring :=
  successHeading ++ renderLines (successComment st).

Definition failureText (st : State) : jsstring :=
  failureHeading ++ renderLines (failureComment st).

(** [`${successComment}\n${failureComment}`]. *)
Definition commentBody (st : State) : jsstring :=
  successText st ++ [LF] ++ failureText st.

Definition credentialMissing (w : World) : bool :=
  USE_AI w && negb (truthy (OPENAI_API_KEY w)).

(** [if (successComment !== "### ... Files:\n\n") runCommand("git commit ...")]. *)
Definition commitStep (w : World) : M (option jsstring) :=
  fun st =>
    (if strictEq (successText st) successHeading then ret None
     else runCommand w commitCommand) st.

Definition main (w : World) : M unit :=
  (if credentialMissing w then
     consoleError (lit "Error: OPENAI_API_KEY environment variable is not set.") None ;;;
     processExit 1
   else ret tt) ;;;
  conflictedFiles <- getConflictedFiles w ;;
  match conflictedFiles with
  | [] => consoleLog (lit "No conflicts found.")
  | _ :: _ =>
      consoleLog (lit "Conflicted files found: " ++ join (lit ", ") conflictedFiles) ;;;
      forOf conflictedFiles (resolveFile w) ;;;
      commitStep w ;;;
      (fun st => postCommentToPR w (commentBody st) st)
  end.

(** [main().catch(...)]: the exit status of the process and its final
    state. *)
Definition script (w : World) : Z * State :=
  match main w initial with
  | (Ok _, st) => (0%Z, st)
  | (Throw error, st) =>
      (1%Z, record (ConsoleError (lit "Error in conflict resolution:") (Some error)) st)
  | (Exited code, st) => (code, st)
  end.

End Main.

(** ** src/extra/resolve-conflict.js: the variant without fallback

    This file declares no [OPENAI_API_KEY], [GITHUB_TOKEN], [PR_NUMBER] or
    [commentBody], yet reads them.  Reading an identifier that resolves
    neither in the scopes of the file nor on the global object throws a
    ReferenceError, so identifier resolution is part of the model. *)

Module Extra.

Inductive Binding :=
| ConstBinding      (* const x = require(...) *)
| FunctionBinding   (* function x() {...} *)
| GlobalBinding.    (* a property of the global object of Node *)

(** The bindings of the module scope, in the order of the file, and the
    globals the file uses.  The locals of [main] that are read
    ([conflictedFiles], [file], [aiResolvedContent], [error]) are bound
    variables of the embedding. *)
Definition moduleScope : list (string * Binding) :=
  [("execSync", ConstBinding); ("fs", ConstBinding); ("path", ConstBinding);
   ("axios", ConstBinding);
   ("runCommand", FunctionBinding); ("getConflictedFiles", FunctionBinding);
   ("resolveWithAI", FunctionBinding); ("postCommentToPR", FunctionBinding);
   ("main", FunctionBinding);
   ("require", GlobalBinding); ("process", GlobalBinding);
   ("console", GlobalBinding)].

Fixpoint resolveBinding (scope : list (string * Binding)) (x : string)
  : option Binding :=
  match scope with
  | [] => None
  | (y, b) :: rest => if String.eqb x y then Some b else resolveBinding rest x
  end.

(** Evaluating the identifier [x]. *)
Definition identifier (x : string) : M Binding :=
  match resolveBinding moduleScope x with
  | Some b => ret b
  | None => throw (ReferenceError x)
  end.

(** Every binding of the file holds a function or an object: truthy. *)
Definition truthyBinding (b : Binding) : bool := true.

(** The text of a bound value inside a template literal.  Schematic: the
    source text of a function is not reproduced. *)
Definition display (b : Binding) : jsstring :=
  match b with
  | FunctionBinding => lit "function"
  | _ => lit "[object Object]"
  end.

(** [x += value]: the value of [x] is read first; a const binding then
    refuses the assignment. *)
Definition compoundAppend (x : string) : M unit :=
  b <- identifier x ;;
  match b with
  | ConstBinding => throw (TypeError "Assignment to constant variable.")
  | _ => ret tt
  end.

Definition runCommand (w : World) (command : jsstring) : M (option jsstring) :=
  tryCatch
    (out <- execSync w command ;; ret (Some (trim out)))
    (fun error =>
       consoleError (lit "Error executing command: " ++ command) (Some error) ;;;
       ret None).

Definition listCommand : jsstring := lit "git diff --name-only --diff-filter=U".

Definition getConflictedFiles (w : World) : M (list jsstring) :=
  conflictedFiles <- runCommand w listCommand ;;
  ret (match conflictedFiles with
       | Some s => if truthyString s then split LF s else []
       | None => []
       end).

Definition completionPrompt (fileContent : jsstring) : jsstring :=
  lit "You are a code assistant. Resolve the following Git merge conflict:" ++
  [LF; LF] ++ fileContent.

(** The arguments of [axios.post] are evaluated before the call: the
    headers read [OPENAI_API_KEY]. *)
Definition resolveWithAI (w : World) (filePath : jsstring)
  : M (option jsstring) :=
  fileContent <- readFileSync w filePath ;;
  key <- identifier "OPENAI_API_KEY" ;;
  texts <- postCompletions w (lit "Bearer " ++ display key)
             (completionPrompt fileContent) ;;
  match texts with
  | text :: _ => ret text
  | [] => throw (TypeError "Cannot read properties of undefined (reading 'text')")
  end.

Definition postCommentToPR (w : World) (commentBody : jsstring) : M unit :=
  tryCatch
    (pr <- identifier "PR_NUMBER" ;;
     token <- identifier "GITHUB_TOKEN" ;;
     postComments w
       (lit "https://api.github.com/repos/" ++
        interpolate (env_GITHUB_REPOSITORY w) ++
        lit "/issues/" ++ display pr ++ lit "/comments")
       (lit "Bearer " ++ display token) commentBody ;;;
     consoleLog (lit "Comment posted to PR."))
    (fun error => consoleError (lit "Error postig comment to PR:") (Some error)).

Definition gitAdd (filePath : jsstring) : jsstring := lit "git add " ++ filePath.

(** One iteration of the loop of [main]: no fallback, and both branches
    append to [commentBody]. *)
Definition resolveFile (w : World) (file : jsstring) : M unit :=
  tryCatch
    (consoleLog (lit "Attempting AI resolution for " ++ file ++ lit "...") ;;;
     aiResolvedContent <- resolveWithAI w file ;;
     match aiResolvedContent with
     | Some content => writeFileSync w file content
     | None =>
         throw (TypeError "The data argument must be of type string. Received undefined")
     end ;;;
     runCommand w (gitAdd file) ;;;
     consoleLog (lit "Resolved " ++ file ++ lit " with AI assistance.") ;;;
     compoundAppend "commentBody")
    (fun error =>
       consoleError (lit "Error resolving " ++ file ++ lit ":") (Some error) ;;;
       compoundAppend "commentBody").

Definition commitCommand : jsstring :=
  lit "git commit -m 'Auto-resolved conflicts with AI assistance'".

(** [!OPENAI_API_KEY || !GITHUB_TOKEN], left to right. *)
Definition credentialMissing : M bool :=
  key <- identifier "OPENAI_API_KEY" ;;
  if negb (truthyBinding key) then ret true
  else token <- identifier "GITHUB_TOKEN" ;; ret (negb (truthyBinding token)).

(** [let body = "### AI-Assisted Conflict Resolution Report\n\n"] is
    declared before the loop and never read: it has no counterpart here. *)
Definition main (w : World) : M unit :=
  missing <- credentialMissing ;;
  (if missing then
     consoleError
       (lit "Error: OPENAI_API_KEY or GITHUB_TOKEN environment variable is not set.")
       None ;;;
     processExit 1
   else ret tt) ;;;
  conflictedFiles <- getConflictedFiles w ;;
  match conflictedFiles with
  | [] => consoleLog (lit "No conflicts found.")
  | _ :: _ =>
      consoleLog (lit "Conflicted files found: " ++ join (lit ", ") conflictedFiles) ;;;
      forOf conflictedFiles (resolveFile w) ;;;
      runCommand w commitCommand ;;;
      argument <- identifier "commentBody" ;;
      postCommentToPR w (display argument)
  end.

Definition script (w : World) : Z * State :=
  match main w initial with
  | (Ok _, st) => (0%Z, st)
  | (Throw error, st) =>
      (1%Z, record (ConsoleError (lit "Error in conflict resolution:") (Some error)) st)
  | (Exited code, st) => (code, st)
  end.

End Extra.

(** ** Reading a report and a trace *)

(** The file a report entry is about; a diff block is an attachment of the
    entry before it, not an entry. *)
Definition entryFile (l : Line) : option jsstring :=
  match l with
  | ResolvedAI file | ResolvedOurs file => Some file
  | FailedManual file | FailedError file _ => Some file
  | DiffBlock _ _ => None
  end.

(** The files listed by a comment, in order. *)
Fixpoint entries (ls : list Line) : list jsstring :=
  match ls with
  | [] => []
  | l :: rest =>
      match entryFile l with
      | Some file => file :: entries rest
      | None => entries rest
      end
  end.

(** A failure entry written by the [catch] of the loop. *)
Definition isErrorLine (l : Line) : bool :=
  match l with FailedError _ _ => true | _ => false end.

Definition isCommit (ev : Event) : bool :=
  match ev with
  | ExecSync command => strictEq command Main.commitCommand
  | _ => false
  end.

Definition isCompletionRequest (ev : Event) : bool :=
  match ev with CompletionRequest _ _ => true | _ => false end.

Definition isConsole (ev : Event) : bool :=
  match ev with ConsoleLog _ | ConsoleError _ _ => true | _ => false end.

(** The state after more calls, the comments unchanged. *)
Definition addTrace (evs : list Event) (st : State) : State :=
  {| trace := trace st ++ evs;
     successComment := successComment st;
     failureComment := failureComment st |}.

(** What the Conflict Detector returns when it runs first. *)
Definition detected (w : World) : list jsstring :=
  match Main.getConflictedFiles w initial with
  | (Ok files, _) => files
  | _ => []
  end.

(** The first line an iteration prints when AI assistance is on. *)
Definition attemptLog (file : jsstring) : Event :=
  ConsoleLog (lit "Attempting AI resolution for " ++ file ++ lit "...").

(** The events of the detector when it runs first. *)
Definition detectorEvents (w : World) : list Event :=
  match shell w [] Main.listCommand with
  | inr _ => [ExecSync Main.listCommand]
  | inl e =>
      [ExecSync Main.listCommand;
       ConsoleError (lit "Error executing command: " ++ Main.listCommand) (Some e)]
  end.

Definition foundLog (files : list jsstring) : Event :=
  ConsoleLog (lit "Conflicted files found: " ++ join (lit ", ") files).

(** The state in which the loop of [Main.main] starts. *)
Definition loopStart (w : World) : State :=
  addTrace (detectorEvents w ++ [foundLog (detected w)]) initial.

(** What [postCommentToPR] prints after its request, made in state [st]. *)
Definition postedLog (w : World) (st : State) : Event :=
  match comments w (trace st) (Main.commentsUrl w) (Main.commentBody st) with
  | None => ConsoleLog (lit "Comment posted to PR.")
  | Some e => ConsoleError (lit "Error postig comment to PR:") (Some e)
  end.

Definition commentRequest (w : World) (st : State) : Event :=
  CommentRequest (Main.commentsUrl w) (Main.commentsAuthorization w)
    (Main.commentBody st).

(** The same world with another answer to the posting of the comment. *)
Definition withComments (w : World)
  (answer : list Event -> jsstring -> jsstring -> option JsError) : World :=
  {| env_OPENAI_API_KEY := env_OPENAI_API_KEY w;
     env_GITHUB_TOKEN := env_GITHUB_TOKEN w;
     env_PR_NUMBER := env_PR_NUMBER w;
     env_USE_AI := env_USE_AI w;
     env_GITHUB_REPOSITORY := env_GITHUB_REPOSITORY w;
     shell := shell w;
     fileRead := fileRead w;
     fileWrite := fileWrite w;
     completions := completions w;
     comments := answer |}.

(** The listing command failed, or printed nothing but white space. *)
Definition listingFailedOrEmpty (answer : JsError + jsstring) : Prop :=
  (exists e, answer = inl e) \/ (exists out, answer = inr out /\ trim out = []).

(** The three ways an iteration of the loop of [Main.main] ends. *)
Inductive Resolution :=
| ByAI
| ByOurs
| Failed (msg : jsstring).

(** The lines an iteration appends to each comment; [diff] is the diff
    block, if any. *)
Definition successLines (file : jsstring) (r : Resolution) (diff : list Line)
  : list Line :=
  match r with
  | ByAI => ResolvedAI file :: diff
  | ByOurs => ResolvedOurs file :: diff
  | Failed _ => []
  end.

Definition failureLines (file : jsstring) (r : Resolution) : list Line :=
  match r with
  | Failed msg => [FailedError file msg]
  | _ => []
  end.

(** [st'] is [st] after an iteration on [file] that ended as [r]. *)
Definition fileStep (w : World) (file : jsstring) (r : Resolution)
  (st st' : State) : Prop :=
  exists evs diff,
    st' = {| trace := trace st ++ evs;
             successComment := successComment st ++ successLines file r diff;
             failureComment := failureComment st ++ failureLines file r |} /\
    (diff = [] \/ exists d, diff = [DiffBlock file d]) /\
    Forall (fun ev => isCommit ev = false) evs /\
    (Main.USE_AI w = false ->
     r = ByOurs /\ Forall (fun ev => isCompletionRequest ev = false) evs) /\
    (r = ByOurs -> In (ExecSync (Main.checkoutOurs file)) evs).

(** The loop of [Main.main] over [files], as a sequence of iterations. *)
Inductive loopSteps (w : World) : list jsstring -> State -> State -> Prop :=
| loop_done st : loopSteps w [] st st
| loop_next file files r st st1 st2 :
    fileStep w file r st st1 ->
    loopSteps w files st1 st2 ->
    loopSteps w (file :: files) st st2.

(** ** Concrete worlds *)

Module Worlds.

Definition http500 : JsError :=
  {| name := lit "AxiosError"; message := lit "Request failed with status code 500" |}.

Definition commandFailed : JsError :=
  {| name := lit "Error"; message := lit "Command failed" |}.

(** A repository whose unmerged paths are printed as [listing]; every other
    command succeeds and prints [output]. *)
Definition repository (listing output : jsstring)
  : list Event -> jsstring -> JsError + jsstring :=
  fun _ command =>
    if strictEq command Main.listCommand then inr listing else inr output.

Definition conflictMarkers : jsstring :=
  lit "<<<<<<< HEAD" ++ [LF] ++ lit "ours" ++ [LF] ++ lit "=======" ++ [LF] ++
  lit "theirs" ++ [LF] ++ lit ">>>>>>> branch" ++ [LF].

(** [c.txt] is conflicted, AI assistance is on, the completion call is
    rejected. *)
Definition completionRejected : World :=
  {| env_OPENAI_API_KEY := Some (lit "sk-test");
     env_GITHUB_TOKEN := Some (lit "ghp-test");
     env_PR_NUMBER := Some (lit "7");
     env_USE_AI := Some (lit "true");
     env_GITHUB_REPOSITORY := Some (lit "louislam/uptime-kuma");
     shell := repository (lit "c.txt" ++ [LF]) [];
     fileRead := fun _ _ => inr conflictMarkers;
     fileWrite := fun _ _ _ => None;
     completions := fun _ _ => Rejected http500;
     comments := fun _ _ _ => None |}.

(** As before, but the completion call answers with an empty text. *)
Definition completionEmpty : World :=
  {| env_OPENAI_API_KEY := Some (lit "sk-test");
     env_GITHUB_TOKEN := Some (lit "ghp-test");
     env_PR_NUMBER := Some (lit "7");
     env_USE_AI := Some (lit "true");
     env_GITHUB_REPOSITORY := Some (lit "louislam/uptime-kuma");
     shell := repository (lit "c.txt" ++ [LF]) [];
     fileRead := fun _ _ => inr conflictMarkers;
     fileWrite := fun _ _ _ => None;
     completions := fun _ _ => Choices [Some []];
     comments := fun _ _ _ => None |}.

(** [a.txt] and [b.txt] are conflicted, AI assistance is off. *)
Definition twoFilesNoAI : World :=
  {| env_OPENAI_API_KEY := None;
     env_GITHUB_TOKEN := Some (lit "ghp-test");
     env_PR_NUMBER := Some (lit "7");
     env_USE_AI := None;
     env_GITHUB_REPOSITORY := Some (lit "louislam/uptime-kuma");
     shell := repository (lit "a.txt" ++ [LF] ++ lit "b.txt" ++ [LF]) (lit "+ours");
     fileRead := fun _ _ => inr conflictMarkers;
     fileWrite := fun _ _ _ => None;
     completions := fun _ _ => Rejected http500;
     comments := fun _ _ _ => None |}.

(** AI assistance is on and no key is set. *)
Definition keyMissing : World :=
  {| env_OPENAI_API_KEY := None;
     env_GITHUB_TOKEN := Some (lit "ghp-test");
     env_PR_NUMBER := Some (lit "7");
     env_USE_AI := Some (lit "true");
     env_GITHUB_REPOSITORY := Some (lit "louislam/uptime-kuma");
     shell := repository (lit "c.txt" ++ [LF]) [];
     fileRead := fun _ _ => inr conflictMarkers;
     fileWrite := fun _ _ _ => None;
     completions := fun _ _ => Rejected http500;
     comments := fun _ _ _ => None |}.

(** Nothing is conflicted: the listing prints an empty line. *)
Definition cleanTree : World :=
  {| env_OPENAI_API_KEY := Some (lit "sk-test");
     env_GITHUB_TOKEN := Some (lit "ghp-test");
     env_PR_NUMBER := Some (lit "7");
     env_USE_AI := Some (lit "true");
     env_GITHUB_REPOSITORY := Some (lit "louislam/uptime-kuma");
     shell := repository [LF] [];
     fileRead := fun _ _ => inr conflictMarkers;
     fileWrite := fun _ _ _ => None;
     completions := fun _ _ => Rejected http500;
     comments := fun _ _ _ => None |}.

(** Not a git repository: every command fails. *)
Definition gitBroken : World :=
  {| env_OPENAI_API_KEY := None;
     env_GITHUB_TOKEN := None;
     env_PR_NUMBER := None;
     env_USE_AI := None;
     env_GITHUB_REPOSITORY := None;
     shell := fun _ _ => inl commandFailed;
     fileRead := fun _ _ => inl commandFailed;
     fileWrite := fun _ _ _ => Some commandFailed;
     completions := fun _ _ => Rejected http500;
     comments := fun _ _ _ => Some http500 |}.

End Worlds.

(** ** More readings of a trace and of a report *)

Definition isExecSync (ev : Event) : bool :=
  match ev with ExecSync _ => true | _ => false end.

Definition isCommentRequest (ev : Event) : bool :=
  match ev with CommentRequest _ _ _ => true | _ => false end.

Definition isWriteFile (ev : Event) : bool :=
  match ev with WriteFile _ _ => true | _ => false end.

Definition diffCommand (file : jsstring) : jsstring :=
  lit "git diff --cached " ++ file.

Definition commandError (command : jsstring) (e : JsError) : Event :=
  ConsoleError (lit "Error executing command: " ++ command) (Some e).

(** The first and the last line [resolveManually] prints. *)
Definition manualLog (file : jsstring) : Event :=
  ConsoleLog (lit "Resolving conflict manually in " ++ file).

Definition resolvedLog (file : jsstring) : Event :=
  ConsoleLog (lit "Resolved " ++ file ++ lit " with 'ours' strategy.").

Definition fileError (file : jsstring) (e : JsError) : Event :=
  ConsoleError (lit "Error resolving " ++ file ++ lit ":") (Some e).

(** The first event of an iteration of the loop of [Main.main]. *)
Definition startLog (w : World) (file : jsstring) : Event :=
  if Main.USE_AI w then attemptLog file else manualLog file.

(** What an iteration on [file] may do: print, run one of three git
    commands on the file, read or write the file and, with AI assistance
    on, ask for a completion with the configured key. *)
Definition iterationEvent (w : World) (file : jsstring) (ev : Event) : Prop :=
  match ev with
  | ConsoleLog _ | ConsoleError _ _ => True
  | ExecSync command =>
      command = Main.checkoutOurs file \/ command = Main.gitAdd file \/
      command = diffCommand file
  | ReadFile path => path = file
  | WriteFile path _ => path = file
  | CompletionRequest authorization _ =>
      Main.USE_AI w = true /\ authorization = Main.completionAuthorization w
  | CommentRequest _ _ _ => False
  end.

(** What an iteration on [file] may append to the two comments: one
    failure entry, or one success entry and at most one diff block, of the
    same file and not empty. *)
Definition iterationLines (file : jsstring) (success failure : list Line) : Prop :=
  (success = [] /\ exists msg, failure = [FailedError file msg]) \/
  (failure = [] /\
   exists entry,
     (entry = ResolvedAI file \/ entry = ResolvedOurs file) /\
     (success = [entry] \/
      exists c diff, success = [entry; DiffBlock file (c :: diff)])).

(** [st'] is [st] after an iteration on [file], with what it did. *)
Definition fileEffects (w : World) (file : jsstring) (st st' : State) : Prop :=
  exists evs success failure,
    st' = {| trace := trace st ++ startLog w file :: evs;
             successComment := successComment st ++ success;
             failureComment := failureComment st ++ failure |} /\
    Forall (iterationEvent w file) evs /\
    List.length (filter isCompletionRequest evs) <= 1 /\
    List.length (filter isWriteFile evs) <= 1 /\
    iterationLines file success failure.

(** The events of one iteration on [file]: its first line, then events of
    that file with at most one completion request and at most one write. *)
Definition iterationBlock (w : World) (file : jsstring) (block : list Event) : Prop :=
  exists evs,
    block = startLog w file :: evs /\
    Forall (iterationEvent w file) evs /\
    List.length (filter isCompletionRequest evs) <= 1 /\
    List.length (filter isWriteFile evs) <= 1.

Inductive loopEffects (w : World) : list jsstring -> State -> State -> Prop :=
| effects_done st : loopEffects w [] st st
| effects_next file files st st1 st2 :
    fileEffects w file st st1 ->
    loopEffects w files st1 st2 ->
    loopEffects w (file :: files) st st2.


(** [l] is [l1] and [l2] shuffled together, each in its order. *)
Inductive Interleave {A : Type} : list A -> list A -> list A -> Prop :=
| interleave_nil : Interleave [] [] []
| interleave_left x l1 l2 l : Interleave l1 l2 l -> Interleave (x :: l1) l2 (x :: l)
| interleave_right x l1 l2 l : Interleave l1 l2 l -> Interleave l1 (x :: l2) (x :: l).

(** A success comment in which every diff block follows the entry of its
    file. *)
Inductive attached : list Line -> Prop :=
| attached_nil : attached []
| attached_AI file rest : attached rest -> attached (ResolvedAI file :: rest)
| attached_ours file rest : attached rest -> attached (ResolvedOurs file :: rest)
| attached_AI_diff file c diff rest :
    attached rest ->
    attached (ResolvedAI file :: DiffBlock file (c :: diff) :: rest)
| attached_ours_diff file c diff rest :
    attached rest ->
    attached (ResolvedOurs file :: DiffBlock file (c :: diff) :: rest).

(** ** More concrete worlds *)

Module MoreWorlds.

(** AI assistance is off, [a.txt] is conflicted and every git command but
    the listing fails. *)
Definition onlyListingWorks : World :=
  {| env_OPENAI_API_KEY := None;
     env_GITHUB_TOKEN := None;
     env_PR_NUMBER := None;
     env_USE_AI := Some (lit "false");
     env_GITHUB_REPOSITORY := None;
     shell := fun _ command =>
                if strictEq command Main.listCommand then inr (lit "a.txt" ++ [LF])
                else inl Worlds.commandFailed;
     fileRead := fun _ _ => inr Worlds.conflictMarkers;
     fileWrite := fun _ _ _ => None;
     completions := fun _ _ => Rejected Worlds.http500;
     comments := fun _ _ _ => Some Worlds.http500 |}.

(** AI assistance is on and the completion answers with a resolution. *)
Definition completionAnswers : World :=
  {| env_OPENAI_API_KEY := Some (lit "sk-test");
     env_GITHUB_TOKEN := Some (lit "ghp-test");
     env_PR_NUMBER := Some (lit "7");
     env_USE_AI := Some (lit "true");
     env_GITHUB_REPOSITORY := Some (lit "louislam/uptime-kuma");
     shell := Worlds.repository (lit "c.txt" ++ [LF]) (lit "+merged");
     fileRead := fun _ _ => inr Worlds.conflictMarkers;
     fileWrite := fun _ _ _ => None;
     completions := fun _ _ => Choices [Some (lit "merged")];
     comments := fun _ _ _ => None |}.

(** As before, but the working tree is read-only. *)
Definition readOnlyTree : World :=
  {| env_OPENAI_API_KEY := Some (lit "sk-test");
     env_GITHUB_TOKEN := Some (lit "ghp-test");
     env_PR_NUMBER := Some (lit "7");
     env_USE_AI := Some (lit "true");
     env_GITHUB_REPOSITORY := Some (lit "louislam/uptime-kuma");
     shell := Worlds.repository (lit "c.txt" ++ [LF]) (lit "+merged");
     fileRead := fun _ _ => inr Worlds.conflictMarkers;
     fileWrite := fun _ _ _ => Some Worlds.commandFailed;
     completions := fun _ _ => Choices [Some (lit "merged")];
     comments := fun _ _ _ => None |}.

(** AI assistance is on and two files are conflicted.  The first
    completion request is answered, the later ones are rejected, so that
    [b.txt] stays unmerged and git refuses to commit. *)
Definition commitRefused : World :=
  {| env_OPENAI_API_KEY := Some (lit "sk-test");
     env_GITHUB_TOKEN := Some (lit "ghp-test");
     env_PR_NUMBER := Some (lit "7");
     env_USE_AI := Some (lit "true");
     env_GITHUB_REPOSITORY := Some (lit "louislam/uptime-kuma");
     shell := fun _ command =>
                if strictEq command Main.listCommand
                then inr (lit "a.txt" ++ [LF] ++ lit "b.txt" ++ [LF])
                else if strictEq command Main.commitCommand
                     then inl Worlds.commandFailed
                     else inr [];
     fileRead := fun _ _ => inr Worlds.conflictMarkers;
     fileWrite := fun _ _ _ => None;
     completions := fun calls _ =>
                      if existsb isCompletionRequest calls
                      then Rejected Worlds.http500
                      else Choices [Some (lit "merged")];
     comments := fun _ _ _ => None |}.

End MoreWorlds.

(** * Properties *)

(** ** The monad and the trace *)

Lemma record_addTrace ev evs st :
  record ev (addTrace evs st) = addTrace (evs ++ [ev]) st.
Proof. unfold record, addTrace; simpl. now rewrite <- app_assoc. Qed.

Lemma addTrace_addTrace evs1 evs2 st :
  addTrace evs2 (addTrace evs1 st) = addTrace (evs1 ++ evs2) st.
Proof. unfold addTrace; simpl. now rewrite <- app_assoc. Qed.

Lemma record_as_addTrace ev st : record ev st = addTrace [ev] st.
Proof. reflexivity. Qed.

Lemma addTrace_nil st : addTrace [] st = st.
Proof. destruct st; unfold addTrace; simpl. now rewrite app_nil_r. Qed.

(** ** String facts *)

Lemma strictEq_true a b : strictEq a b = true <-> a = b.
Proof. unfold strictEq. destruct (jsstring_dec a b); split; congruence. Qed.

Lemma strictEq_false a b : strictEq a b = false <-> a <> b.
Proof. unfold strictEq. destruct (jsstring_dec a b); split; congruence. Qed.

Lemma split_not_nil sep s : split sep s <> [].
Proof.
  induction s as [|c s IH]; simpl; [discriminate|].
  destruct (c =? sep)%N; [discriminate|].
  destruct (split sep s); [contradiction | discriminate].
Qed.

Lemma render_not_empty l : render l <> [].
Proof. destruct l; discriminate. Qed.

Lemma renderLines_empty ls : renderLines ls = [] <-> ls = [].
Proof.
  split; [|intros ->; reflexivity].
  destruct ls as [|l ls]; [reflexivity|].
  unfold renderLines; simpl. intros H.
  apply app_eq_nil in H. destruct H as [H _]. now apply render_not_empty in H.
Qed.

(** The commit is skipped exactly when no line was appended to
    [successComment]. *)
Lemma successText_is_heading st :
  strictEq (Main.successText st) successHeading = true <-> successComment st = [].
Proof.
  rewrite strictEq_true. unfold Main.successText. rewrite <- renderLines_empty.
  split; intros H.
  - rewrite <- (app_nil_r successHeading) in H at 2. now apply app_inv_head in H.
  - rewrite H. apply app_nil_r.
Qed.

(** None of the commands of the loop is a commit. *)
Lemma gitAdd_not_commit file : isCommit (ExecSync (Main.gitAdd file)) = false.
Proof.
  unfold isCommit. apply strictEq_false. intros H.
  vm_compute in H. discriminate H.
Qed.

Lemma checkoutOurs_not_commit file :
  isCommit (ExecSync (Main.checkoutOurs file)) = false.
Proof.
  unfold isCommit. apply strictEq_false. intros H.
  vm_compute in H. discriminate H.
Qed.

Lemma diffCached_not_commit file :
  isCommit (ExecSync (lit "git diff --cached " ++ file)) = false.
Proof.
  unfold isCommit. apply strictEq_false. intros H.
  vm_compute in H. discriminate H.
Qed.

Lemma listCommand_not_commit : isCommit (ExecSync Main.listCommand) = false.
Proof. reflexivity. Qed.

Create HintDb commands.
#[local] Hint Resolve gitAdd_not_commit checkoutOurs_not_commit
  diffCached_not_commit listCommand_not_commit : commands.

(** ** The functions of the script, one by one *)

Ltac norm_state :=
  unfold record, addTrace; cbn; rewrite <- ?app_assoc; cbn.

(** [runCommand] returns on every command, failed or not. *)
Lemma runCommand_eq w command st :
  Main.runCommand w command st =
  match shell w (trace st) command with
  | inr out => (Ok (Some (trim out)), addTrace [ExecSync command] st)
  | inl e =>
      (Ok None,
       addTrace [ExecSync command;
                 ConsoleError (lit "Error executing command: " ++ command) (Some e)]
         st)
  end.
Proof.
  unfold Main.runCommand, tryCatch, bind, execSync, ret, consoleError, emit.
  destruct (shell w (trace st) command); cbn; norm_state; reflexivity.
Qed.

Ltac step_shell :=
  match goal with
  | |- context [shell ?w ?tr ?c] =>
      let E := fresh "Eshell" in destruct (shell w tr c) eqn:E; cbn
  end.

Ltac close_events :=
  repeat (first [ apply Forall_nil
                | apply Forall_cons;
                  [ first [ reflexivity | solve [auto with commands] ] | ] ]).

Lemma resolveManually_returns w file st :
  exists evs,
    Main.resolveManually w file st = (Ok true, addTrace evs st) /\
    Forall (fun ev => isCommit ev = false) evs /\
    Forall (fun ev => isCompletionRequest ev = false) evs /\
    In (ExecSync (Main.checkoutOurs file)) evs.
Proof.
  unfold Main.resolveManually, tryCatch, bind, consoleLog, emit, ret.
  rewrite !runCommand_eq; cbn.
  step_shell; rewrite !runCommand_eq; cbn; step_shell;
    norm_state;
    (eexists; split; [reflexivity|]);
    (split; [close_events|split; [close_events|cbn; tauto]]).
Qed.

(** [getFileDiff] has nothing to catch. *)
Lemma getFileDiff_eq w file st :
  Main.getFileDiff w file st =
  Main.runCommand w (lit "git diff --cached " ++ file) st.
Proof.
  unfold Main.getFileDiff, tryCatch. rewrite runCommand_eq.
  now destruct (shell w (trace st) _).
Qed.

Lemma resolveWithAI_eq w file st :
  Main.resolveWithAI w file st =
  match fileRead w (trace st) file with
  | inl e => (Throw e, addTrace [ReadFile file] st)
  | inr content =>
      let st' :=
        addTrace [ReadFile file;
                  CompletionRequest (Main.completionAuthorization w) (Main.completionPrompt content)]
          st in
      match completions w (trace st ++ [ReadFile file]) (Main.completionPrompt content) with
      | Rejected e => (Throw e, st')
      | Choices [] =>
          (Throw (TypeError "Cannot read properties of undefined (reading 'text')"), st')
      | Choices (text :: _) => (Ok text, st')
      end
  end.
Proof.
  unfold Main.resolveWithAI, bind, readFileSync, postCompletions.
  destruct (fileRead w (trace st) file) as [e|content]; cbn; [reflexivity|].
  destruct (completions w _ _) as [e|[|text texts]]; cbn; norm_state; reflexivity.
Qed.

Ltac step_world :=
  match goal with
  | |- context [shell ?w ?tr ?c] =>
      let E := fresh "Eshell" in destruct (shell w tr c) as [?e|?out] eqn:E
  | |- context [fileRead ?w ?tr ?f] =>
      let E := fresh "Eread" in destruct (fileRead w tr f) as [?e|?content] eqn:E
  | |- context [fileWrite ?w ?tr ?f ?c] =>
      let E := fresh "Ewrite" in destruct (fileWrite w tr f c) as [?e|] eqn:E
  | |- context [completions ?w ?tr ?p] =>
      let E := fresh "Eai" in
      destruct (completions w tr p) as [?e|[|[[|? ?]|] ?]] eqn:E
  | |- context [match trim ?out with _ => _ end] =>
      let E := fresh "Etrim" in destruct (trim out) eqn:E
  end.

Ltac unfold_script :=
  repeat first
    [ progress unfold Main.resolveFile, Main.attemptAI, Main.resolveManually,
        tryCatch, bind, consoleLog, consoleError, emit, ret, throw,
        writeFileSync, appendSuccess, appendFailure
    | rewrite getFileDiff_eq
    | rewrite resolveWithAI_eq
    | rewrite runCommand_eq
    | progress cbn ].

Ltac close_step :=
  unfold fileStep; norm_state;
  eexists; eexists;
  split; [f_equal; cbn; first [reflexivity | symmetry; apply app_nil_r]|];
  split; [first [left; reflexivity | right; eexists; reflexivity]|];
  split; [close_events|];
  split; [first [ intros; congruence
                | intros _; split; [reflexivity|close_events] ]|];
  first [discriminate | intros _; cbn; tauto].

Ltac leaf :=
  first [ exists ByAI; eexists; split; [reflexivity|]; solve [close_step]
        | exists ByOurs; eexists; split; [reflexivity|]; solve [close_step]
        | eexists (Failed _); eexists; split; [reflexivity|]; solve [close_step] ].

(** The three ends of an iteration. *)
Lemma resolveFile_returns w file st :
  exists r st', Main.resolveFile w file st = (Ok tt, st') /\ fileStep w file r st st'.
Proof.
  unfold Main.resolveFile.
  destruct (Main.USE_AI w) eqn:Hai; unfold_script;
    repeat (step_world; unfold_script); leaf.
Qed.

(** ** The loop *)

Section Loop.

Variable w : World.

Lemma loop_returns files :
  forall st, exists st',
    forOf files (Main.resolveFile w) st = (Ok tt, st') /\ loopSteps w files st st'.
Proof.
  induction files as [|file files IH]; intros st.
  - exists st. split; [reflexivity | constructor].
  - destruct (resolveFile_returns w file st) as (r & st1 & Hrun & Hstep).
    destruct (IH st1) as (st2 & Hloop & Hsteps).
    exists st2. split; [|econstructor; eassumption].
    cbn. unfold bind. now rewrite Hrun.
Qed.

Lemma entries_app ls1 ls2 : entries (ls1 ++ ls2) = entries ls1 ++ entries ls2.
Proof.
  induction ls1 as [|l ls1 IH]; [reflexivity|].
  cbn. destruct (entryFile l); cbn; now rewrite IH.
Qed.

Lemma entries_successLines file r diff :
  (diff = [] \/ exists d, diff = [DiffBlock file d]) ->
  entries (successLines file r diff) ++ entries (failureLines file r) = [file].
Proof. intros [->|[d ->]]; destruct r; reflexivity. Qed.

(** Every iteration adds its file once, to one comment. *)
Lemma loop_accounts files st st' :
  loopSteps w files st st' ->
  Permutation (entries (successComment st') ++ entries (failureComment st'))
    ((entries (successComment st) ++ entries (failureComment st)) ++ files).
Proof.
  induction 1 as [st|file files r st st1 st2 Hstep _ IH].
  - now rewrite app_nil_r.
  - destruct Hstep as (evs & diff & -> & Hdiff & _).
    cbn in IH. rewrite !entries_app in IH. rewrite IH.
    apply entries_successLines with (r := r) in Hdiff.
    change (file :: files) with ([file] ++ files).
    rewrite <- Hdiff, (app_assoc _ _ files).
    apply Permutation_app_tail.
    rewrite <- !app_assoc. apply Permutation_app_head.
    rewrite !app_assoc. apply Permutation_app_tail, Permutation_app_comm.
Qed.

(** The loop never commits. *)
Lemma loop_trace files st st' :
  loopSteps w files st st' ->
  exists evs, trace st' = trace st ++ evs /\
              Forall (fun ev => isCommit ev = false) evs /\
              (Main.USE_AI w = false ->
               Forall (fun ev => isCompletionRequest ev = false) evs).
Proof.
  induction 1 as [st|file files r st st1 st2 Hstep _ IH].
  - exists []. rewrite app_nil_r. repeat split; constructor.
  - destruct Hstep as (evs & diff & -> & _ & Hc & Hai & _).
    destruct IH as (evs' & Ht & Hc' & Hai'). cbn in Ht.
    exists (evs ++ evs'). rewrite Ht, app_assoc.
    repeat split; [now apply Forall_app|].
    intros Hoff. apply Forall_app. split; [now apply Hai | now apply Hai'].
Qed.

(** A success comment without entry has no line at all: a diff block only
    follows an entry. *)
Lemma loop_success_shape files st st' :
  loopSteps w files st st' ->
  (entries (successComment st) = [] -> successComment st = []) ->
  entries (successComment st') = [] -> successComment st' = [].
Proof.
  induction 1 as [st|file files r st st1 st2 Hstep _ IH]; [tauto|].
  intros Hinv. apply IH.
  destruct Hstep as (evs & diff & -> & _). cbn.
  rewrite entries_app. intros H. apply app_eq_nil in H. destruct H as [H1 H2].
  destruct r; [discriminate H2 | discriminate H2 |].
  cbn. rewrite app_nil_r. now apply Hinv.
Qed.

(** Failure entries come from the [catch] only. *)
Lemma loop_failures files st st' :
  loopSteps w files st st' ->
  Forall (fun l => isErrorLine l = true) (failureComment st) ->
  Forall (fun l => isErrorLine l = true) (failureComment st').
Proof.
  induction 1 as [st|file files r st st1 st2 Hstep _ IH]; [tauto|].
  intros Hinv. apply IH.
  destruct Hstep as (evs & diff & -> & _). cbn.
  apply Forall_app. split; [assumption|].
  destruct r; repeat constructor.
Qed.


End Loop.

(** ** The scripts on concrete worlds *)

Example trim_listing :
  trim (lit "a.txt" ++ [LF] ++ lit "b.txt" ++ [LF]) = lit "a.txt" ++ [LF] ++ lit "b.txt".
Proof. reflexivity. Qed.

Example split_listing :
  split LF (lit "a.txt" ++ [LF] ++ lit "b.txt") = [lit "a.txt"; lit "b.txt"].
Proof. reflexivity. Qed.

Example split_empty : split LF [] = [[]].
Proof. reflexivity. Qed.

(** Two conflicted files, AI assistance off: both are resolved by the
    fallback, one commit is made, the failure comment is empty. *)
Example two_files_without_ai :
  fst (Main.script Worlds.twoFilesNoAI) = 0%Z /\
  successComment (snd (Main.script Worlds.twoFilesNoAI)) =
    [ResolvedOurs (lit "a.txt"); DiffBlock (lit "a.txt") (lit "+ours");
     ResolvedOurs (lit "b.txt"); DiffBlock (lit "b.txt") (lit "+ours")] /\
  failureComment (snd (Main.script Worlds.twoFilesNoAI)) = [] /\
  filter isCommit (trace (snd (Main.script Worlds.twoFilesNoAI))) =
    [ExecSync Main.commitCommand].
Proof. vm_compute. repeat split. Qed.

(** An empty completion: the file is resolved by the fallback. *)
Example empty_completion_falls_back :
  successComment (snd (Main.script Worlds.completionEmpty)) =
    [ResolvedOurs (lit "c.txt")] /\
  failureComment (snd (Main.script Worlds.completionEmpty)) = [].
Proof. vm_compute. repeat split. Qed.

(** ** The whole script *)

Lemma getConflictedFiles_eq w st :
  Main.getConflictedFiles w st =
  match shell w (trace st) Main.listCommand with
  | inr out =>
      (Ok (if truthyString (trim out) then split LF (trim out) else []),
       addTrace [ExecSync Main.listCommand] st)
  | inl e =>
      (Ok [],
       addTrace [ExecSync Main.listCommand;
                 ConsoleError (lit "Error executing command: " ++ Main.listCommand)
                   (Some e)] st)
  end.
Proof.
  unfold Main.getConflictedFiles, bind, ret. rewrite runCommand_eq.
  now destruct (shell w (trace st) Main.listCommand).
Qed.

Lemma detector_first w :
  Main.getConflictedFiles w initial =
  (Ok (detected w), addTrace (detectorEvents w) initial).
Proof.
  unfold detected, detectorEvents. rewrite getConflictedFiles_eq. cbn.
  now destruct (shell w [] Main.listCommand).
Qed.

Lemma postCommentToPR_eq w st :
  Main.postCommentToPR w (Main.commentBody st) st =
  (Ok tt,
   addTrace [commentRequest w st; postedLog w st] st).
Proof.
  unfold Main.postCommentToPR, postedLog, tryCatch, bind, postComments,
    consoleLog, consoleError, emit.
  destruct (comments w (trace st) _ _); norm_state; reflexivity.
Qed.

Lemma commitStep_eq w st :
  exists r evs,
    Main.commitStep w st = (Ok r, addTrace evs st) /\
    (successComment st = [] -> evs = []) /\
    (successComment st <> [] ->
     exists logs, evs = ExecSync Main.commitCommand :: logs /\
                  Forall (fun ev => isConsole ev = true) logs).
Proof.
  unfold Main.commitStep.
  destruct (strictEq (Main.successText st) successHeading) eqn:E.
  - apply successText_is_heading in E.
    exists None, []. rewrite addTrace_nil. repeat split; congruence.
  - assert (successComment st <> []) as Hne.
    { intros H. apply successText_is_heading in H. congruence. }
    rewrite runCommand_eq.
    destruct (shell w (trace st) Main.commitCommand);
      eexists; eexists; (split; [reflexivity|]); (split; [congruence|]);
      intros _; eexists; (split; [reflexivity|]); repeat constructor.
Qed.

Lemma main_with_credential w :
  Main.credentialMissing w = false ->
  Main.main w initial =
  match detected w with
  | [] =>
      (Ok tt, addTrace (detectorEvents w ++ [ConsoleLog (lit "No conflicts found.")])
                initial)
  | file :: files =>
      match forOf (file :: files) (Main.resolveFile w)
              (addTrace (detectorEvents w ++ [foundLog (file :: files)]) initial) with
      | (Ok _, st1) =>
          match Main.commitStep w st1 with
          | (Ok _, st2) => Main.postCommentToPR w (Main.commentBody st2) st2
          | (Throw e, st2) => (Throw e, st2)
          | (Exited c, st2) => (Exited c, st2)
          end
      | (Throw e, st1) => (Throw e, st1)
      | (Exited c, st1) => (Exited c, st1)
      end
  end.
Proof.
  intros Hcred. unfold Main.main. rewrite Hcred.
  unfold bind at 1, ret at 1. cbv beta iota.
  unfold bind at 1. rewrite detector_first.
  destruct (detected w) as [|file files].
  - unfold consoleLog, emit. rewrite record_addTrace. reflexivity.
  - set (loop := forOf (file :: files) (Main.resolveFile w)).
    unfold bind, consoleLog, emit. rewrite record_addTrace.
    destruct (loop _) as [[[]|e|c] st1]; reflexivity.
Qed.

(** A run that finds conflicts: the loop, the commit step, the report. *)
Lemma script_with_conflicts w :
  Main.credentialMissing w = false ->
  detected w <> [] ->
  exists st1 r levs evs,
    forOf (detected w) (Main.resolveFile w) (loopStart w) = (Ok tt, st1) /\
    loopSteps w (detected w) (loopStart w) st1 /\
    trace st1 = detectorEvents w ++ foundLog (detected w) :: levs /\
    Forall (fun ev => isCommit ev = false) levs /\
    (Main.USE_AI w = false ->
     Forall (fun ev => isCompletionRequest ev = false) levs) /\
    Main.commitStep w st1 = (Ok r, addTrace evs st1) /\
    (successComment st1 = [] -> evs = []) /\
    (successComment st1 <> [] ->
     exists logs, evs = ExecSync Main.commitCommand :: logs /\
                  Forall (fun ev => isConsole ev = true) logs) /\
    Main.script w =
    (0%Z,
     {| trace := trace st1 ++ evs ++
                 [commentRequest w st1; postedLog w (addTrace evs st1)];
        successComment := successComment st1;
        failureComment := failureComment st1 |}).
Proof.
  intros Hcred Hfiles. unfold Main.script. rewrite main_with_credential by assumption.
  pose proof (loop_returns w (detected w) (loopStart w)) as (st1 & Hloop & Hsteps).
  destruct (loop_trace _ _ _ _ Hsteps) as (levs & Htrace & Hcommits & Hquiet).
  destruct (commitStep_eq w st1) as (r & evs & Hcommit & Hnone & Hsome).
  exists st1, r, levs, evs.
  split; [exact Hloop|]. split; [exact Hsteps|].
  split; [rewrite Htrace; unfold loopStart, addTrace, initial;
          cbn [trace app]; now rewrite <- app_assoc|].
  split; [exact Hcommits|]. split; [exact Hquiet|].
  split; [exact Hcommit|]. split; [exact Hnone|]. split; [exact Hsome|].
  unfold loopStart in Hloop.
  destruct (detected w) as [|file files] eqn:Efiles; [congruence|].
  rewrite Hloop, Hcommit, postCommentToPR_eq.
  unfold addTrace, commentRequest; cbn [trace successComment failureComment].
  now rewrite <- app_assoc.
Qed.

Lemma script_without_conflicts w :
  Main.credentialMissing w = false ->
  detected w = [] ->
  Main.script w =
  (0%Z, addTrace (detectorEvents w ++ [ConsoleLog (lit "No conflicts found.")]) initial).
Proof.
  intros Hcred Hfiles. unfold Main.script.
  rewrite main_with_credential by assumption. now rewrite Hfiles.
Qed.

Lemma script_without_credential w :
  Main.credentialMissing w = true ->
  Main.script w =
  (1%Z,
   addTrace
     [ConsoleError (lit "Error: OPENAI_API_KEY environment variable is not set.") None]
     initial).
Proof.
  intros Hcred. unfold Main.script, Main.main. rewrite Hcred. reflexivity.
Qed.

(** * The claims *)

(** ** Fatal start: the missing credential *)

(** Nothing of the variant runs before its credential check throws. *)
Lemma extra_script_eq w :
  Extra.script w =
  (1%Z,
   {| trace := [ConsoleError (lit "Error in conflict resolution:")
                  (Some (ReferenceError "OPENAI_API_KEY"))];
      successComment := [];
      failureComment := [] |}).
Proof. reflexivity. Qed.

(** C6. When AI assistance is on and [OPENAI_API_KEY] is unset or empty,
    the script prints one error and exits with status 1: no command, no
    file access and no request is made.  The variant without the flag exits
    with status 1 in every run, after printing the error that escaped
    [main]. *)
Theorem missing_credential_is_fatal w :
  Main.USE_AI w = true ->
  truthy (Main.OPENAI_API_KEY w) = false ->
  Main.script w =
  (1%Z,
   {| trace := [ConsoleError
                  (lit "Error: OPENAI_API_KEY environment variable is not set.")
                  None];
      successComment := [];
      failureComment := [] |}) /\
  fst (Extra.script w) = 1%Z /\
  Forall (fun ev => isConsole ev = true) (trace (snd (Extra.script w))).
Proof.
  intros Hai Hkey. split.
  - apply script_without_credential. unfold Main.credentialMissing.
    now rewrite Hai, Hkey.
  - rewrite extra_script_eq. split; [reflexivity | repeat constructor].
Qed.

Lemma missing_credential_is_fatal_witness :
  Main.USE_AI Worlds.keyMissing = true /\
  truthy (Main.OPENAI_API_KEY Worlds.keyMissing) = false /\
  fst (Main.script Worlds.keyMissing) = 1%Z.
Proof.
  split; [reflexivity | split; [reflexivity|]].
  rewrite (proj1 (missing_credential_is_fatal Worlds.keyMissing eq_refl eq_refl)).
  reflexivity.
Defined.

(** ** No conflict: the no-op run *)

Lemma detectorEvents_quiet w :
  Forall (fun ev => isConsole ev = true \/ ev = ExecSync Main.listCommand)
    (detectorEvents w).
Proof.
  unfold detectorEvents. destruct (shell w [] Main.listCommand);
    repeat constructor; (left; reflexivity) || (right; reflexivity).
Qed.

(** C4. When the credential check passes and the detector returns no
    file, the script runs the listing command, prints "No conflicts found."
    and ends with status 0.  Its trace holds nothing but the listing command
    and console output: no commit, no completion request, no write. *)
Theorem no_conflicts_is_noop w :
  Main.credentialMissing w = false ->
  detected w = [] ->
  Main.script w =
  (0%Z,
   {| trace := detectorEvents w ++ [ConsoleLog (lit "No conflicts found.")];
      successComment := [];
      failureComment := [] |}) /\
  Forall (fun ev => isConsole ev = true \/ ev = ExecSync Main.listCommand)
    (trace (snd (Main.script w))).
Proof.
  intros Hcred Hnone.
  rewrite (script_without_conflicts w Hcred Hnone). split; [reflexivity|].
  cbn. apply Forall_app. split; [apply detectorEvents_quiet|].
  repeat constructor.
Qed.

Lemma no_conflicts_is_noop_witness :
  Main.credentialMissing Worlds.cleanTree = false /\
  detected Worlds.cleanTree = [] /\
  fst (Main.script Worlds.cleanTree) = 0%Z.
Proof.
  split; [reflexivity | split; [reflexivity|]].
  rewrite (proj1 (no_conflicts_is_noop Worlds.cleanTree eq_refl eq_refl)).
  reflexivity.
Defined.

(** ** The detector on a failed or silent listing *)

Lemma getConflictedFiles_empty w st :
  listingFailedOrEmpty (shell w (trace st) Main.listCommand) ->
  fst (Main.getConflictedFiles w st) = Ok [].
Proof.
  rewrite getConflictedFiles_eq.
  intros [[e ->]|[out [-> Hout]]]; [reflexivity|].
  now rewrite Hout.
Qed.

(** C8. When the listing command fails, or prints nothing but white
    space, [getConflictedFiles] returns the empty array; the script then
    prints "No conflicts found." and ends with status 0. *)
Theorem failed_listing_is_noop w :
  Main.credentialMissing w = false ->
  listingFailedOrEmpty (shell w [] Main.listCommand) ->
  fst (Main.getConflictedFiles w initial) = Ok [] /\
  Main.script w =
  (0%Z,
   {| trace := detectorEvents w ++ [ConsoleLog (lit "No conflicts found.")];
      successComment := [];
      failureComment := [] |}).
Proof.
  intros Hcred Hlist.
  assert (fst (Main.getConflictedFiles w initial) = Ok []) as Hempty
    by now apply getConflictedFiles_empty.
  split; [assumption|].
  apply script_without_conflicts; [assumption|].
  unfold detected. destruct (Main.getConflictedFiles w initial) as [o st].
  cbn in Hempty. now rewrite Hempty.
Qed.

Lemma failed_listing_is_noop_witness :
  Main.credentialMissing Worlds.gitBroken = false /\
  listingFailedOrEmpty (shell Worlds.gitBroken [] Main.listCommand) /\
  fst (Main.script Worlds.gitBroken) = 0%Z.
Proof.
  assert (listingFailedOrEmpty (shell Worlds.gitBroken [] Main.listCommand)) as H
    by (left; exists Worlds.commandFailed; reflexivity).
  split; [reflexivity | split; [exact H|]].
  rewrite (proj2 (failed_listing_is_noop Worlds.gitBroken eq_refl H)).
  reflexivity.
Defined.

(** ** The fallback never fails *)

Lemma final_failures_are_errors w :
  Forall (fun l => isErrorLine l = true) (failureComment (snd (Main.script w))).
Proof.
  destruct (Main.credentialMissing w) eqn:Hcred.
  - rewrite script_without_credential by assumption. constructor.
  - destruct (detected w) as [|file files] eqn:Hfiles.
    + rewrite script_without_conflicts by assumption. constructor.
    + destruct (script_with_conflicts w Hcred)
        as (st1 & r & levs & evs & _ & Hsteps & _ & _ & _ & _ & _ & _ & ->);
        [congruence|].
      cbn [snd failureComment].
      apply (loop_failures _ _ _ _ Hsteps). constructor.
Qed.

(** C10. [resolveManually] returns [true] on every path and in every
    world, also when both git commands fail, since [runCommand] turns a
    failed command into [null]; and every entry of the final failure comment
    was written by the [catch] of the loop, none by a failed fallback. *)
Theorem fallback_never_fails w :
  (forall file st, exists st', Main.resolveManually w file st = (Ok true, st')) /\
  Forall (fun l => isErrorLine l = true) (failureComment (snd (Main.script w))).
Proof.
  split; [|apply final_failures_are_errors].
  intros file st. destruct (resolveManually_returns w file st) as (evs & H & _).
  eexists. exact H.
Qed.

(** ** AI assistance disabled *)

Lemma filter_none {A} (f : A -> bool) (l : list A) :
  Forall (fun x => f x = false) l -> filter f l = [].
Proof.
  induction 1 as [|x l Hx _ IH]; [reflexivity|]. cbn. now rewrite Hx.
Qed.


Lemma console_not_commit evs :
  Forall (fun ev => isConsole ev = true) evs ->
  Forall (fun ev => isCommit ev = false) evs.
Proof.
  apply Forall_impl. intros [] H; (reflexivity || discriminate H).
Qed.


Lemma detectorEvents_no_commit w :
  Forall (fun ev => isCommit ev = false) (detectorEvents w).
Proof.
  unfold detectorEvents. destruct (shell w [] Main.listCommand); repeat constructor.
Qed.


Lemma postedLog_console w st : isConsole (postedLog w st) = true.
Proof. unfold postedLog. now destruct (comments w _ _ _). Qed.

(** The fallback on one file: both commands, between its two lines. *)
Lemma resolveManually_events w file st :
  exists evs,
    Main.resolveManually w file st =
    (Ok true, addTrace (manualLog file :: evs ++ [resolvedLog file]) st) /\
    filter isExecSync evs =
      [ExecSync (Main.checkoutOurs file); ExecSync (Main.gitAdd file)] /\
    Forall (fun ev => isExecSync ev = true \/
                      exists command e, ev = commandError command e) evs.
Proof.
  unfold Main.resolveManually, tryCatch, bind, consoleLog, emit, ret.
  rewrite !runCommand_eq; cbn [trace record].
  step_shell; rewrite !runCommand_eq; cbn [trace addTrace]; step_shell;
    norm_state;
    match goal with
    | |- exists evs, (_, {| trace := _ ++ _ :: ?l; successComment := _;
                            failureComment := _ |}) = _ /\ _ =>
        exists (removelast l)
    end;
    (split; [reflexivity|]);
    (split; [reflexivity|]); cbn [removelast];
    repeat (apply Forall_cons; [first [left; reflexivity
                                      | right; eexists; eexists; reflexivity]|]);
    apply Forall_nil.
Qed.





(** ** The commit *)

Lemma filter_isCommit_console evs :
  Forall (fun ev => isConsole ev = true) evs -> filter isCommit evs = [].
Proof. intros H. now apply filter_none, console_not_commit. Qed.

(** A success comment lists a file exactly when it has a line. *)
Lemma loop_success_empty w files st1 :
  loopSteps w files (loopStart w) st1 ->
  successComment st1 = [] <-> entries (successComment st1) = [].
Proof.
  intros Hsteps. split; [now intros ->|].
  apply (loop_success_shape _ _ _ _ Hsteps). reflexivity.
Qed.

(** The commits of a run that found conflicts. *)
Lemma commits_of_run w :
  Main.credentialMissing w = false ->
  detected w <> [] ->
  (entries (successComment (snd (Main.script w))) = [] /\
   filter isCommit (trace (snd (Main.script w))) = []) \/
  (entries (successComment (snd (Main.script w))) <> [] /\
   filter isCommit (trace (snd (Main.script w))) = [ExecSync Main.commitCommand]).
Proof.
  intros Hcred Hfiles.
  destruct (script_with_conflicts w Hcred Hfiles)
    as (st1 & r & levs & evs & _ & Hsteps & Htrace & Hloop & _ & _ & Hnone & Hsome & ->).
  pose proof (loop_success_empty _ _ _ Hsteps) as Hshape.
  cbn [snd trace successComment].
  assert (filter isCommit (trace st1) = []) as Hbefore.
  { rewrite Htrace, filter_app.
    rewrite (filter_none _ _ (detectorEvents_no_commit w)).
    cbn [filter foundLog isCommit app]. now apply filter_none. }
  assert (filter isCommit [commentRequest w st1; postedLog w (addTrace evs st1)] = [])
    as Hafter.
  { apply filter_none. constructor; [reflexivity|]. constructor; [|constructor].
    unfold postedLog. now destruct (comments w _ _ _). }
  rewrite !filter_app, Hbefore, Hafter, app_nil_r. cbn [app].
  destruct (successComment st1) as [|l ls] eqn:Hsucc.
  - left. rewrite Hnone by reflexivity. split; reflexivity.
  - right. destruct Hsome as (logs & -> & Hlogs); [discriminate|].
    split.
    + intros H. apply Hshape in H. discriminate H.
    + cbn [filter]. change (isCommit (ExecSync Main.commitCommand)) with true.
      cbv iota. now rewrite filter_isCommit_console.
Qed.

(** C3, as the code has it.  In the run of [MoreWorlds.commitRefused]
    [a.txt] is resolved with AI and [b.txt] fails, so the success list is
    not empty; the commit command is run, git refuses it, and the script
    only prints the error: no commit is created. *)
Lemma success_without_commit :
  Main.credentialMissing MoreWorlds.commitRefused = false /\
  detected MoreWorlds.commitRefused = [lit "a.txt"; lit "b.txt"] /\
  entries (successComment (snd (Main.script MoreWorlds.commitRefused))) =
    [lit "a.txt"] /\
  entries (failureComment (snd (Main.script MoreWorlds.commitRefused))) =
    [lit "b.txt"] /\
  (forall calls,
     shell MoreWorlds.commitRefused calls Main.commitCommand =
     inl Worlds.commandFailed) /\
  In (commandError Main.commitCommand Worlds.commandFailed)
     (trace (snd (Main.script MoreWorlds.commitRefused))) /\
  fst (Main.script MoreWorlds.commitRefused) = 0%Z.
Proof.
  split; [reflexivity|]. split; [reflexivity|].
  split; [vm_compute; reflexivity|]. split; [vm_compute; reflexivity|].
  split; [intros calls; reflexivity|].
  split; [vm_compute; tauto | vm_compute; reflexivity].
Qed.

(** C3, amended.  In a run that found conflicts the commit command is
    run exactly when the success comment lists a file, and then once; with
    no file resolved no commit command appears in the trace.  Whether git
    then creates the commit is git's answer, which the script does not
    check.  The variant never runs its commit command: no run gets past its
    credential check. *)
Theorem commit_iff_some_success w :
  Main.credentialMissing w = false ->
  detected w <> [] ->
  (In (ExecSync Main.commitCommand) (trace (snd (Main.script w))) <->
   entries (successComment (snd (Main.script w))) <> []) /\
  (entries (successComment (snd (Main.script w))) <> [] ->
   filter isCommit (trace (snd (Main.script w))) = [ExecSync Main.commitCommand]) /\
  (entries (successComment (snd (Main.script w))) = [] ->
   filter isCommit (trace (snd (Main.script w))) = []) /\
  ~ In (ExecSync Extra.commitCommand) (trace (snd (Extra.script w))).
Proof.
  intros Hcred Hfiles.
  assert (forall tr, In (ExecSync Main.commitCommand) tr <->
                     In (ExecSync Main.commitCommand) (filter isCommit tr)) as Hin.
  { intros tr. rewrite filter_In. split; [|tauto]. intros H. split; [assumption|].
    reflexivity. }
  split; [|split; [|split]].
  - rewrite Hin.
    destruct (commits_of_run w Hcred Hfiles) as [[He ->]|[He ->]].
    + split; [intros [] | congruence].
    + split; [intros _; assumption | intros _; now left].
  - destruct (commits_of_run w Hcred Hfiles) as [[He Hc]|[He Hc]]; congruence.
  - destruct (commits_of_run w Hcred Hfiles) as [[He Hc]|[He Hc]]; congruence.
  - rewrite extra_script_eq. cbn. intros [H|[]]. discriminate H.
Qed.

Lemma commit_iff_some_success_witness :
  Main.credentialMissing Worlds.twoFilesNoAI = false /\
  detected Worlds.twoFilesNoAI <> [] /\
  In (ExecSync Main.commitCommand) (trace (snd (Main.script Worlds.twoFilesNoAI))).
Proof.
  assert (detected Worlds.twoFilesNoAI <> []) as H by (vm_compute; discriminate).
  split; [reflexivity | split; [exact H|]].
  apply (proj1 (commit_iff_some_success Worlds.twoFilesNoAI eq_refl H)).
  vm_compute. discriminate.
Defined.

(** ** Every conflict is accounted for *)

Lemma NoDup_app_disjoint {A} (l1 l2 : list A) :
  NoDup (l1 ++ l2) -> forall x, In x l1 -> ~ In x l2.
Proof.
  induction l1 as [|a l1 IH]; cbn; [tauto|].
  intros Hnd x [<-|Hx] Hx2.
  - inversion Hnd as [|? ? Hnot _]; subst. apply Hnot, in_or_app. now right.
  - inversion Hnd; subst. now apply (IH H2 x).
Qed.

(** C2. Past the credential check, the files listed by the success
    comment together with the files listed by the failure comment are the
    files the detector returned, each occurrence once; when the detector
    returned no path twice, no file is listed twice, none is listed by both
    comments and none is missing.  The comment posted is the rendering of
    these two lists. *)
Theorem every_conflict_reported_once w :
  Main.credentialMissing w = false ->
  Permutation
    (entries (successComment (snd (Main.script w))) ++
     entries (failureComment (snd (Main.script w))))
    (detected w) /\
  (NoDup (detected w) ->
   NoDup (entries (successComment (snd (Main.script w))) ++
          entries (failureComment (snd (Main.script w)))) /\
   forall file, In file (detected w) ->
     (In file (entries (successComment (snd (Main.script w)))) /\
      ~ In file (entries (failureComment (snd (Main.script w))))) \/
     (~ In file (entries (successComment (snd (Main.script w)))) /\
      In file (entries (failureComment (snd (Main.script w)))))) /\
  (detected w <> [] ->
   In (commentRequest w (snd (Main.script w))) (trace (snd (Main.script w)))).
Proof.
  intros Hcred.
  assert (Permutation
            (entries (successComment (snd (Main.script w))) ++
             entries (failureComment (snd (Main.script w))))
            (detected w)) as Hperm.
  { destruct (detected w) as [|file0 files] eqn:Hfiles.
    - rewrite script_without_conflicts by assumption. constructor.
    - destruct (script_with_conflicts w Hcred)
        as (st1 & r & levs & evs & _ & Hsteps & _ & _ & _ & _ & _ & _ & ->);
        [congruence|].
      rewrite Hfiles in Hsteps. cbn [snd successComment failureComment].
      apply (loop_accounts _ _ _ _ Hsteps). }
  split; [exact Hperm|]. split.
  - intros Hnd.
    assert (NoDup (entries (successComment (snd (Main.script w))) ++
                   entries (failureComment (snd (Main.script w))))) as Hnd'
      by (apply (Permutation_NoDup (Permutation_sym Hperm)), Hnd).
    split; [exact Hnd'|].
    intros file Hin.
    apply (Permutation_in _ (Permutation_sym Hperm)) in Hin.
    apply in_app_or in Hin. destruct Hin as [Hs|Hf].
    + left. split; [assumption|]. now apply (NoDup_app_disjoint _ _ Hnd').
    + right. split; [|assumption]. intros Hs.
      now apply (NoDup_app_disjoint _ _ Hnd' file).
  - intros Hfiles.
    destruct (script_with_conflicts w Hcred Hfiles)
      as (st1 & r & levs & evs & _ & _ & _ & _ & _ & _ & _ & _ & ->).
    cbn [snd trace]. apply in_or_app. right. apply in_or_app. right.
    left. reflexivity.
Qed.

Lemma every_conflict_reported_once_witness :
  Main.credentialMissing Worlds.twoFilesNoAI = false /\
  Permutation
    (entries (successComment (snd (Main.script Worlds.twoFilesNoAI))) ++
     entries (failureComment (snd (Main.script Worlds.twoFilesNoAI))))
    [lit "a.txt"; lit "b.txt"].
Proof.
  split; [reflexivity|].
  exact (proj1 (every_conflict_reported_once Worlds.twoFilesNoAI eq_refl)).
Defined.

(** ** Posting the report *)

(** The answer to the comment request is only read by [postCommentToPR]. *)
Lemma withComments_credential w answer :
  Main.credentialMissing (withComments w answer) = Main.credentialMissing w.
Proof. reflexivity. Qed.

Lemma withComments_detected w answer : detected (withComments w answer) = detected w.
Proof. reflexivity. Qed.

Lemma withComments_loop w answer st :
  forOf (detected (withComments w answer)) (Main.resolveFile (withComments w answer))
    st =
  forOf (detected w) (Main.resolveFile w) st.
Proof. reflexivity. Qed.

Lemma withComments_commitStep w answer st :
  Main.commitStep (withComments w answer) st = Main.commitStep w st.
Proof. reflexivity. Qed.

(** C7. The exit status of a run and everything it does up to the
    comment request are the same whatever the request answers: there are a
    status and a state [st], fixed by the rest of the world, such that the
    run ends in [st] followed by the comment request and one line on the
    console exactly when it passed the credential check and found
    conflicts, and otherwise ends in [st] without posting.  When the request
    fails with an error, that line is the error printed by the [catch] of
    [postCommentToPR]; nothing follows it and the status stays 0. *)
Theorem report_delivery_is_best_effort w :
  exists status st (posted : bool),
    (posted = true <-> Main.credentialMissing w = false /\ detected w <> []) /\
    (posted = true -> status = 0%Z) /\
    (forall answer,
       Main.script (withComments w answer) =
       (status,
        if posted
        then addTrace [commentRequest w st; postedLog (withComments w answer) st] st
        else st)) /\
    (forall answer e,
       answer (trace st) (Main.commentsUrl w) (Main.commentBody st) = Some e ->
       postedLog (withComments w answer) st =
       ConsoleError (lit "Error postig comment to PR:") (Some e)) /\
    (forall answer,
       answer (trace st) (Main.commentsUrl w) (Main.commentBody st) = None ->
       postedLog (withComments w answer) st =
       ConsoleLog (lit "Comment posted to PR.")).
Proof.
  assert (forall st answer e,
             answer (trace st) (Main.commentsUrl w) (Main.commentBody st) = Some e ->
             postedLog (withComments w answer) st =
             ConsoleError (lit "Error postig comment to PR:") (Some e)) as Hfail.
  { intros st answer e H. unfold postedLog. cbn [comments withComments].
    change (Main.commentsUrl (withComments w answer)) with (Main.commentsUrl w).
    now rewrite H. }
  assert (forall st answer,
             answer (trace st) (Main.commentsUrl w) (Main.commentBody st) = None ->
             postedLog (withComments w answer) st =
             ConsoleLog (lit "Comment posted to PR.")) as Hposted.
  { intros st answer H. unfold postedLog. cbn [comments withComments].
    change (Main.commentsUrl (withComments w answer)) with (Main.commentsUrl w).
    now rewrite H. }
  destruct (Main.credentialMissing w) eqn:Hcred.
  - exists 1%Z,
      (addTrace
         [ConsoleError
            (lit "Error: OPENAI_API_KEY environment variable is not set.") None]
         initial), false.
    split; [split; [discriminate | intros [H _]; discriminate H]|].
    split; [discriminate|].
    split; [|split; [apply Hfail | apply Hposted]].
    intros answer. apply script_without_credential. exact Hcred.
  - destruct (detected w) as [|file0 files] eqn:Hfiles.
    + exists 0%Z,
        (addTrace (detectorEvents w ++ [ConsoleLog (lit "No conflicts found.")])
           initial), false.
      split; [split; [discriminate | intros [_ H]; now contradiction H]|].
      split; [discriminate|].
      split; [|split; [apply Hfail | apply Hposted]].
      intros answer.
      apply (script_without_conflicts (withComments w answer)); assumption.
    + assert (detected w <> []) as Hsome by congruence.
      destruct (script_with_conflicts w Hcred Hsome)
        as (st1 & r & levs & evs & Hloop & _ & _ & _ & _ & Hcommit & _).
      exists 0%Z, (addTrace evs st1), true.
      split; [split; [intros _; split; [reflexivity | discriminate] | reflexivity]|].
      split; [reflexivity|].
      split; [|split; [apply Hfail | apply Hposted]].
      intros answer.
      destruct (script_with_conflicts (withComments w answer) Hcred Hsome)
        as (st1' & r' & levs' & evs' & Hloop' & _ & _ & _ & _ & Hcommit' & _ & _ & ->).
      change (forOf (detected w) (Main.resolveFile w) (loopStart w) = (Ok tt, st1'))
        in Hloop'.
      rewrite Hloop in Hloop'. injection Hloop' as <-.
      rewrite withComments_commitStep, Hcommit in Hcommit'.
      injection Hcommit' as _ Hevs. apply app_inv_head in Hevs. subst evs'.
      unfold addTrace; cbn [trace successComment failureComment].
      now rewrite <- app_assoc.
Qed.

(** ** A completion call that fails *)

(** C1, as the code has it.  In the run of [Worlds.completionRejected]
    AI assistance is on, [c.txt] is the one conflicted file and the
    completion request is rejected: the file is listed in the failure
    comment with the message of the error, the success comment is empty and
    no [git checkout --ours] is run. *)
Lemma rejected_completion_is_listed_as_failure :
  Main.USE_AI Worlds.completionRejected = true /\
  detected Worlds.completionRejected = [lit "c.txt"] /\
  In (CompletionRequest (lit "Bearer sk-test")
        (Main.completionPrompt Worlds.conflictMarkers))
     (trace (snd (Main.script Worlds.completionRejected))) /\
  successComment (snd (Main.script Worlds.completionRejected)) = [] /\
  failureComment (snd (Main.script Worlds.completionRejected)) =
    [FailedError (lit "c.txt") (lit "Request failed with status code 500")] /\
  ~ In (ExecSync (Main.checkoutOurs (lit "c.txt")))
      (trace (snd (Main.script Worlds.completionRejected))).
Proof.
  split; [reflexivity|]. split; [reflexivity|].
  split; [vm_compute; tauto|]. split; [reflexivity|]. split; [reflexivity|].
  vm_compute. intros H.
  repeat (destruct H as [H|H]; [discriminate H|]). exact H.
Qed.

(** C1, amended.  With AI assistance on and the file read, an iteration
    whose completion request is rejected prints the error and appends the
    file to the failure comment with the message of the error, leaving the
    success comment as it was and running no git command; an iteration whose
    completion request answers with no text or an empty text takes the
    fallback: it runs [git checkout --ours] and [git add] on the file and
    appends it to the success comment as resolved with the 'ours'
    strategy. *)
Theorem completion_failure_handling w file st content :
  Main.USE_AI w = true ->
  fileRead w (trace st ++ [attemptLog file]) file = inr content ->
  (forall e,
     completions w (trace st ++ [attemptLog file; ReadFile file])
       (Main.completionPrompt content) = Rejected e ->
     Main.resolveFile w file st =
     (Ok tt,
      {| trace := trace st ++
                  [attemptLog file; ReadFile file;
                   CompletionRequest (Main.completionAuthorization w)
                     (Main.completionPrompt content);
                   ConsoleError (lit "Error resolving " ++ file ++ lit ":") (Some e)];
         successComment := successComment st;
         failureComment := failureComment st ++ [FailedError file (message e)] |})) /\
  (forall text rest,
     completions w (trace st ++ [attemptLog file; ReadFile file])
       (Main.completionPrompt content) = Choices (text :: rest) ->
     truthy text = false ->
     exists evs diff,
       Main.resolveFile w file st =
       (Ok tt,
        {| trace := trace st ++ evs;
           successComment := successComment st ++ ResolvedOurs file :: diff;
           failureComment := failureComment st |}) /\
       In (ExecSync (Main.checkoutOurs file)) evs /\
       In (ExecSync (Main.gitAdd file)) evs /\
       (diff = [] \/ exists d, diff = [DiffBlock file d])).
Proof.
  intros Hai Hread.
  assert ((trace st ++ [attemptLog file]) ++ [ReadFile file] =
          trace st ++ [attemptLog file; ReadFile file]) as Hassoc
    by now rewrite <- app_assoc.
  split.
  - intros e Hrejected.
    unfold Main.resolveFile. rewrite Hai. unfold_script.
    fold (attemptLog file). rewrite Hread. cbn. rewrite Hassoc, Hrejected. cbn.
    norm_state. reflexivity.
  - intros text rest Hanswer Hfalsy.
    unfold Main.resolveFile. rewrite Hai. unfold_script.
    fold (attemptLog file). rewrite Hread. cbn. rewrite Hassoc, Hanswer.
    destruct text as [[|c s]|]; [|discriminate Hfalsy|];
      unfold_script; repeat (step_world; unfold_script); norm_state;
      eexists; eexists;
      (split; [reflexivity|]);
      (split; [cbn; tauto|]);
      (split; [cbn; tauto|]);
      first [left; reflexivity | right; eexists; reflexivity].
Qed.

Lemma completion_failure_handling_witness :
  Main.USE_AI Worlds.completionRejected = true /\
  failureComment
    (snd (Main.resolveFile Worlds.completionRejected (lit "c.txt") initial)) =
  [FailedError (lit "c.txt") (message Worlds.http500)].
Proof.
  split; [reflexivity|].
  rewrite (proj1 (completion_failure_handling Worlds.completionRejected
                    (lit "c.txt") initial Worlds.conflictMarkers
                    eq_refl eq_refl)
             Worlds.http500 eq_refl).
  reflexivity.
Defined.

(** ** The variant and its undeclared identifiers *)

Lemma extra_main_eq w :
  Extra.main w initial = (Throw (ReferenceError "OPENAI_API_KEY"), initial).
Proof. reflexivity. Qed.

(** An iteration of the loop of the variant throws from its [catch]: the
    completion request is never sent, as its headers read the undeclared
    [OPENAI_API_KEY], and the [catch] reads the undeclared [commentBody]. *)
Lemma extra_resolveFile_throws w file st :
  exists evs,
    Extra.resolveFile w file st =
    (Throw (ReferenceError "commentBody"), addTrace evs st) /\
    Forall (fun ev => isConsole ev = true \/ ev = ReadFile file) evs.
Proof.
  unfold Extra.resolveFile, Extra.resolveWithAI, tryCatch, bind, consoleLog,
    consoleError, emit, readFileSync.
  cbn [trace record].
  destruct (fileRead w (trace st ++ _) file) as [e|content].
  - eexists. split; [norm_state; reflexivity|].
    repeat constructor; (left; reflexivity) || (right; reflexivity).
  - eexists. split; [norm_state; reflexivity|].
    constructor; [left; reflexivity|]. constructor; [right; reflexivity|].
    constructor; [left; reflexivity|]. constructor.
Qed.

(** C9, as the code has it.  The repository of
    [Worlds.completionRejected] has one conflicted file, yet the run of the
    variant stops at the first statement of [main], on the undeclared
    [OPENAI_API_KEY]: the detector is not run and the loop is not entered,
    so that the error that ends the run is not the one of the report
    variable. *)
Lemma extra_run_stops_before_the_loop :
  fst (Extra.getConflictedFiles Worlds.completionRejected initial) =
    Ok [lit "c.txt"] /\
  Extra.main Worlds.completionRejected initial =
    (Throw (ReferenceError "OPENAI_API_KEY"), initial) /\
  ReferenceError "OPENAI_API_KEY" <> ReferenceError "commentBody" /\
  trace (snd (Extra.main Worlds.completionRejected initial)) = [].
Proof.
  split; [reflexivity|]. split; [reflexivity|]. split; [|reflexivity].
  intros H. vm_compute in H. discriminate H.
Qed.

(** C9, amended.  The variant appends its report lines to [commentBody],
    which it never declares (it declares [body]): whenever its loop is run
    on at least one file, the first iteration throws a ReferenceError on
    [commentBody] out of the loop, having done nothing but print and read
    the file; no fallback, no git command and no completion request is
    made.  No run of the script gets that far: [main] throws on the
    undeclared [OPENAI_API_KEY] at its credential check and the process
    exits with status 1. *)
Theorem extra_report_variable_is_undefined w :
  (forall file files st,
     exists evs,
       forOf (file :: files) (Extra.resolveFile w) st =
       (Throw (ReferenceError "commentBody"), addTrace evs st) /\
       Forall (fun ev => isConsole ev = true \/ ev = ReadFile file) evs) /\
  Extra.main w initial = (Throw (ReferenceError "OPENAI_API_KEY"), initial) /\
  Extra.script w =
  (1%Z,
   {| trace := [ConsoleError (lit "Error in conflict resolution:")
                  (Some (ReferenceError "OPENAI_API_KEY"))];
      successComment := [];
      failureComment := [] |}).
Proof.
  split; [|split; [apply extra_main_eq | apply extra_script_eq]].
  intros file files st.
  destruct (extra_resolveFile_throws w file st) as (evs & Hrun & Hevs).
  exists evs. split; [|exact Hevs].
  cbn [forOf]. unfold bind. now rewrite Hrun.
Qed.

(** * More of the code *)

(** ** [trim] and [split] *)

Lemma trimStart_nil s : trimStart s = [] <-> forallb isWhiteSpace s = true.
Proof.
  induction s as [|c s IH]; cbn; [tauto|].
  destruct (isWhiteSpace c); cbn; [exact IH|]. split; discriminate.
Qed.

Lemma trimStart_head s c t : trimStart s = c :: t -> isWhiteSpace c = false.
Proof.
  induction s as [|a s IH]; cbn; [discriminate|].
  destruct (isWhiteSpace a) eqn:Ha; [exact IH|].
  intros H. injection H as <- _. exact Ha.
Qed.

Lemma trimStart_fixed c t : isWhiteSpace c = false -> trimStart (c :: t) = c :: t.
Proof. intros H. cbn. now rewrite H. Qed.

Lemma trimStart_idempotent s : trimStart (trimStart s) = trimStart s.
Proof.
  destruct (trimStart s) as [|c t] eqn:E; [reflexivity|].
  apply trimStart_fixed. now apply (trimStart_head s c t).
Qed.

Lemma trimStart_app s c t :
  isWhiteSpace c = false -> trimStart (s ++ c :: t) = trimStart s ++ c :: t.
Proof.
  intros Hc. induction s as [|a s IH]; cbn; [now rewrite Hc|].
  now destruct (isWhiteSpace a).
Qed.

Lemma forallb_rev {A} (f : A -> bool) l : forallb f (rev l) = forallb f l.
Proof.
  induction l as [|a l IH]; [reflexivity|].
  cbn. rewrite forallb_app, IH. cbn. rewrite andb_true_r. apply andb_comm.
Qed.

(** [trim] leaves nothing exactly when there was only white space. *)
Lemma trim_nil s : trim s = [] <-> forallb isWhiteSpace s = true.
Proof.
  unfold trim, trimEnd. rewrite <- trimStart_nil.
  split.
  - intros H. apply (f_equal (@rev N)) in H. rewrite rev_involutive in H.
    cbn in H. apply trimStart_nil in H. rewrite forallb_rev in H.
    apply trimStart_nil in H. now rewrite trimStart_idempotent in H.
  - now intros ->.
Qed.

(** The ends of a trimmed string are not white space. *)
Lemma trim_first s c t : trim s = c :: t -> isWhiteSpace c = false.
Proof.
  unfold trim, trimEnd.
  destruct (trimStart s) as [|a u] eqn:E; [discriminate|].
  pose proof (trimStart_head s a u E) as Ha.
  cbn [rev]. rewrite (trimStart_app (rev u) a []) by exact Ha.
  rewrite rev_app_distr. cbn. intros H. injection H as <- _. exact Ha.
Qed.

Lemma trim_last s c t : trim s = t ++ [c] -> isWhiteSpace c = false.
Proof.
  unfold trim, trimEnd. intros H.
  apply (f_equal (@rev N)) in H. rewrite rev_involutive, rev_app_distr in H.
  cbn in H. now apply trimStart_head in H.
Qed.

Lemma trim_idempotent s : trim (trim s) = trim s.
Proof.
  destruct (trim s) as [|c t] eqn:E; [reflexivity|].
  pose proof (trim_first s c t E) as Hc.
  unfold trim at 1. rewrite (trimStart_fixed c t Hc), <- E.
  unfold trim, trimEnd. now rewrite rev_involutive, trimStart_idempotent.
Qed.

Lemma join_cons sep x y rest :
  join sep (x :: y :: rest) = x ++ sep ++ join sep (y :: rest).
Proof. reflexivity. Qed.

(** Joining the pieces with the separator gives the string back. *)
Lemma join_split sep s : join [sep] (split sep s) = s.
Proof.
  induction s as [|c s IH]; [reflexivity|].
  cbn [split]. destruct (N.eqb_spec c sep) as [->|Hne].
  - pose proof (split_not_nil sep s) as Hnil.
    destruct (split sep s) as [|y rest]; [contradiction|].
    rewrite join_cons, IH. reflexivity.
  - pose proof (split_not_nil sep s) as Hnil.
    destruct (split sep s) as [|y rest]; [contradiction|].
    destruct rest as [|z rest].
    + cbn in IH |- *. now rewrite IH.
    + rewrite join_cons in IH |- *. cbn. now rewrite <- IH.
Qed.

Lemma split_no_separator sep s : Forall (fun piece => ~ In sep piece) (split sep s).
Proof.
  induction s as [|c s IH]; [repeat constructor; intros []|].
  cbn [split]. destruct (N.eqb_spec c sep) as [->|Hne].
  - constructor; [intros []|exact IH].
  - destruct (split sep s) as [|y rest]; [repeat constructor; intros [H|[]]; congruence|].
    inversion IH as [|? ? Hy Hrest]; subst.
    constructor; [|exact Hrest]. intros [H|H]; [congruence | now apply Hy].
Qed.

Lemma split_length sep s :
  List.length (split sep s) = S (count_occ N.eq_dec s sep).
Proof.
  induction s as [|c s IH]; [reflexivity|].
  cbn [split count_occ]. destruct (N.eqb_spec c sep) as [->|Hne].
  - destruct (N.eq_dec sep sep); [|congruence]. cbn. now rewrite IH.
  - destruct (N.eq_dec c sep); [congruence|].
    pose proof (split_not_nil sep s) as Hnil.
    destruct (split sep s) as [|y rest]; [contradiction|]. exact IH.
Qed.

Lemma split_first sep c s :
  c <> sep -> exists piece pieces, split sep (c :: s) = (c :: piece) :: pieces.
Proof.
  intros Hne. cbn [split]. destruct (N.eqb_spec c sep); [congruence|].
  destruct (split sep s) as [|y rest]; eauto.
Qed.

Lemma split_last sep s c : c <> sep -> last (split sep (s ++ [c])) [] <> [].
Proof.
  intros Hne. induction s as [|a s IH].
  - cbn. destruct (N.eqb_spec c sep); [congruence|]. discriminate.
  - cbn [app split]. pose proof (split_not_nil sep (s ++ [c])) as Hnil.
    destruct (N.eqb_spec a sep).
    + destruct (split sep (s ++ [c])) as [|y rest]; [contradiction|]. exact IH.
    + destruct (split sep (s ++ [c])) as [|y rest]; [contradiction|].
      destruct rest as [|z rest]; [discriminate | exact IH].
Qed.

(** ** [runCommand] and [getConflictedFiles] *)

(** X1. [runCommand] runs its command once and returns in every world:
    [null] exactly when the command failed, after printing the error, and
    otherwise the output without white space at either end. *)
Theorem runCommand_never_throws w command st :
  exists r logs,
    Main.runCommand w command st = (Ok r, addTrace (ExecSync command :: logs) st) /\
    (r = None <-> exists e, shell w (trace st) command = inl e) /\
    (forall e, shell w (trace st) command = inl e -> logs = [commandError command e]) /\
    (forall out, shell w (trace st) command = inr out ->
       r = Some (trim out) /\ logs = []) /\
    (forall s, r = Some s ->
       trim s = s /\
       (forall c t, s = c :: t -> isWhiteSpace c = false) /\
       (forall c t, s = t ++ [c] -> isWhiteSpace c = false)).
Proof.
  rewrite runCommand_eq.
  destruct (shell w (trace st) command) as [e|out].
  - exists None, [commandError command e].
    split; [reflexivity|]. split; [split; eauto|].
    split; [intros e' H; now injection H as <-|].
    split; [discriminate | discriminate].
  - exists (Some (trim out)), [].
    split; [reflexivity|]. split; [split; [discriminate | intros [e H]; discriminate H]|].
    split; [discriminate|].
    split; [intros out' H; now injection H as <-|].
    intros s H. injection H as <-.
    split; [apply trim_idempotent|].
    split; intros c t H; [now apply (trim_first out c t) | now apply (trim_last out c t)].
Qed.

Lemma getConflictedFiles_fst w st :
  fst (Main.getConflictedFiles w st) =
  match shell w (trace st) Main.listCommand with
  | inr out => Ok (if truthyString (trim out) then split LF (trim out) else [])
  | inl _ => Ok []
  end.
Proof.
  rewrite getConflictedFiles_eq. now destruct (shell w (trace st) Main.listCommand).
Qed.

(** X2. [getConflictedFiles] returns the empty array in two cases only:
    the listing command failed, or every character it printed is white
    space. *)
Theorem detector_empty_iff w st :
  fst (Main.getConflictedFiles w st) = Ok [] <->
  (exists e, shell w (trace st) Main.listCommand = inl e) \/
  (exists out, shell w (trace st) Main.listCommand = inr out /\
               forallb isWhiteSpace out = true).
Proof.
  rewrite getConflictedFiles_fst.
  destruct (shell w (trace st) Main.listCommand) as [e|out].
  - split; [eauto | reflexivity].
  - split.
    + intros H. right. exists out. split; [reflexivity|]. apply trim_nil.
      destruct (trim out) as [|c t]; [reflexivity|].
      change (Ok (split LF (c :: t)) = Ok []) in H.
      exfalso. apply (split_not_nil LF (c :: t)). congruence.
    + intros [[e H]|[out' [H Hws]]]; [discriminate H|].
      injection H as <-. apply trim_nil in Hws. now rewrite Hws.
Qed.

(** X3. When the listing prints more than white space, the paths
    [getConflictedFiles] returns are the lines of the trimmed output: joined
    by line feeds they give it back, none contains a line feed, there is one
    more path than line feeds, and the first and the last path are not
    empty. *)
Theorem detector_paths w st out :
  shell w (trace st) Main.listCommand = inr out ->
  forallb isWhiteSpace out = false ->
  exists files,
    fst (Main.getConflictedFiles w st) = Ok files /\
    join [LF] files = trim out /\
    Forall (fun path => ~ In LF path) files /\
    List.length files = S (count_occ N.eq_dec (trim out) LF) /\
    hd [] files <> [] /\
    last files [] <> [].
Proof.
  intros Hshell Hout.
  assert (trim out <> []) as Hne.
  { intros H. apply trim_nil in H. congruence. }
  exists (split LF (trim out)).
  rewrite getConflictedFiles_fst, Hshell.
  split; [destruct (trim out); [congruence | reflexivity]|].
  split; [apply join_split|].
  split; [apply split_no_separator|].
  split; [apply split_length|].
  split.
  - destruct (trim out) as [|c t] eqn:E; [congruence|].
    pose proof (trim_first out c t E) as Hc.
    destruct (split_first LF c t) as (piece & pieces & ->);
      [intros ->; discriminate Hc | discriminate].
  - destruct (exists_last Hne) as (t & c & E). rewrite E.
    apply split_last. intros ->.
    pose proof (trim_last out LF t E) as Hc. discriminate Hc.
Qed.

Lemma detector_paths_witness :
  exists files,
    fst (Main.getConflictedFiles Worlds.twoFilesNoAI initial) = Ok files /\
    join [LF] files = lit "a.txt" ++ [LF] ++ lit "b.txt".
Proof.
  destruct (detector_paths Worlds.twoFilesNoAI initial
              (lit "a.txt" ++ [LF] ++ lit "b.txt" ++ [LF]) eq_refl eq_refl)
    as (files & Hfiles & Hjoin & _).
  exists files. split; [exact Hfiles | exact Hjoin].
Defined.

(** ** The helpers of the loop *)

(** X4. [resolveManually] prints its first line, runs [git checkout
    --ours] and then [git add] on the file, the second also when the first
    failed, prints "Resolved ... with 'ours' strategy." and returns [true];
    between its two lines it only runs these two commands and prints their
    errors. *)
Theorem resolveManually_runs_both_commands w file st :
  exists evs,
    Main.resolveManually w file st =
    (Ok true, addTrace (manualLog file :: evs ++ [resolvedLog file]) st) /\
    filter isExecSync evs =
      [ExecSync (Main.checkoutOurs file); ExecSync (Main.gitAdd file)] /\
    Forall (fun ev => isExecSync ev = true \/
                      exists command e, ev = commandError command e) evs.
Proof. exact (resolveManually_events w file st). Qed.

(** X5. [getFileDiff] is [runCommand] on [git diff --cached <file>]: it
    returns in every world, [null] when the command failed, and the only
    error it ever prints is the one of [runCommand]; its own [catch] is
    never entered. *)
Theorem getFileDiff_never_throws w file st :
  Main.getFileDiff w file st = Main.runCommand w (diffCommand file) st /\
  exists r logs,
    Main.getFileDiff w file st =
    (Ok r, addTrace (ExecSync (diffCommand file) :: logs) st) /\
    (logs = [] \/ exists e, r = None /\ logs = [commandError (diffCommand file) e]).
Proof.
  assert (Main.getFileDiff w file st = Main.runCommand w (diffCommand file) st) as H.
  { unfold Main.getFileDiff, tryCatch, diffCommand. rewrite runCommand_eq.
    now destruct (shell w (trace st) _). }
  split; [exact H|]. rewrite H, runCommand_eq.
  destruct (shell w (trace st) (diffCommand file)) as [e|out].
  - exists None, [commandError (diffCommand file) e]. split; [reflexivity|].
    right. now exists e.
  - exists (Some (trim out)), []. split; [reflexivity | now left].
Qed.

(** X6. [resolveWithAI] reads the file first and sends at most one
    completion request: none when the read throws, and otherwise one whose
    prompt is the fixed instruction followed by the whole content read.  It
    returns the text of the first choice, throws when the request is
    rejected or carries no choice, and does nothing else: no write, no
    command, no line on the console. *)
Theorem resolveWithAI_effects w file st :
  (exists e,
     fileRead w (trace st) file = inl e /\
     Main.resolveWithAI w file st = (Throw e, addTrace [ReadFile file] st)) \/
  (exists content o,
     fileRead w (trace st) file = inr content /\
     Main.resolveWithAI w file st =
     (o, addTrace [ReadFile file;
                   CompletionRequest (Main.completionAuthorization w)
                     (lit "You are a code assistant. Resolve the following Git merge conflict:"
                      ++ [LF; LF] ++ content)] st) /\
     match completions w (trace st ++ [ReadFile file]) (Main.completionPrompt content) with
     | Rejected e => o = Throw e
     | Choices [] =>
         o = Throw (TypeError "Cannot read properties of undefined (reading 'text')")
     | Choices (text :: _) => o = Ok text
     end).
Proof.
  rewrite resolveWithAI_eq.
  destruct (fileRead w (trace st) file) as [e|content].
  - left. exists e. split; reflexivity.
  - right. exists content. cbv zeta.
    destruct (completions w _ _) as [e|[|text texts]];
      eexists; (split; [reflexivity|]); (split; reflexivity).
Qed.

(** X7. [postCommentToPR] sends one request and returns in every world,
    printing one line, the error when the request failed.  It sends the
    request also when [GITHUB_REPOSITORY], [PR_NUMBER] or [GITHUB_TOKEN] are
    unset: the address and the credential then hold the text
    "undefined". *)
Theorem postCommentToPR_never_throws w body st :
  (exists log,
     Main.postCommentToPR w body st =
     (Ok tt,
      addTrace [CommentRequest (Main.commentsUrl w) (Main.commentsAuthorization w) body;
                log] st) /\
     match comments w (trace st) (Main.commentsUrl w) body with
     | None => log = ConsoleLog (lit "Comment posted to PR.")
     | Some e => log = ConsoleError (lit "Error postig comment to PR:") (Some e)
     end) /\
  (env_GITHUB_REPOSITORY w = None -> env_PR_NUMBER w = None ->
   Main.commentsUrl w =
   lit "https://api.github.com/repos/undefined/issues/undefined/comments") /\
  (env_GITHUB_TOKEN w = None -> Main.commentsAuthorization w = lit "Bearer undefined").
Proof.
  split; [|split].
  - unfold Main.postCommentToPR, tryCatch, bind, postComments, consoleLog,
      consoleError, emit.
    destruct (comments w (trace st) (Main.commentsUrl w) body);
      eexists; (split; [norm_state; reflexivity | reflexivity]).
  - intros Hrepo Hpr. unfold Main.commentsUrl, Main.PR_NUMBER.
    rewrite Hrepo, Hpr. reflexivity.
  - intros Htoken. unfold Main.commentsAuthorization, Main.GITHUB_TOKEN.
    rewrite Htoken. reflexivity.
Qed.

(** ** What an iteration and the loop may do *)

Ltac close_iteration_events Hai :=
  repeat (first [ apply Forall_nil
                | apply Forall_cons;
                  [ first [ exact I | reflexivity
                          | split; [exact Hai | reflexivity]
                          | left; reflexivity
                          | right; left; reflexivity
                          | right; right; reflexivity ] | ] ]).

Ltac close_lines :=
  first [ left; split; [reflexivity | eexists; reflexivity]
        | right; split; [reflexivity|]; eexists; split; revgoals;
          [ first [left; reflexivity | right; eexists; eexists; reflexivity]
          | first [left; reflexivity | right; reflexivity] ] ].

Ltac close_effects Hai :=
  eexists; split; [reflexivity|];
  unfold fileEffects, startLog, attemptLog, manualLog; rewrite Hai; norm_state;
  eexists; eexists; eexists;
  split; [f_equal; cbn [app]; first [reflexivity | symmetry; apply app_nil_r]|];
  split; [close_iteration_events Hai|];
  split; [cbn [filter isCompletionRequest List.length]; lia|];
  split; [cbn [filter isWriteFile List.length]; lia|];
  close_lines.

Lemma resolveFile_effects w file st :
  exists st', Main.resolveFile w file st = (Ok tt, st') /\ fileEffects w file st st'.
Proof.
  unfold Main.resolveFile.
  destruct (Main.USE_AI w) eqn:Hai; unfold_script;
    repeat (step_world; unfold_script); close_effects Hai.
Qed.

Lemma loop_effects w files :
  forall st, exists st',
    forOf files (Main.resolveFile w) st = (Ok tt, st') /\ loopEffects w files st st'.
Proof.
  induction files as [|file files IH]; intros st.
  - exists st. split; [reflexivity | constructor].
  - destruct (resolveFile_effects w file st) as (st1 & Hrun & Hstep).
    destruct (IH st1) as (st2 & Hloop & Hsteps).
    exists st2. split; [|econstructor; eassumption].
    cbn [forOf]. unfold bind. now rewrite Hrun.
Qed.

Lemma startLog_console w file : isConsole (startLog w file) = true.
Proof. unfold startLog. now destruct (Main.USE_AI w). Qed.

Lemma console_iterationEvent w file ev : isConsole ev = true -> iterationEvent w file ev.
Proof. destruct ev; cbn; (discriminate || intros _; exact I). Qed.

Lemma console_filtered (f : Event -> bool) ev :
  (forall ev', isConsole ev' = true -> f ev' = false) ->
  isConsole ev = true -> forall evs, filter f (ev :: evs) = filter f evs.
Proof. intros Hf Hev evs. cbn. now rewrite (Hf ev Hev). Qed.

Lemma console_not_completionRequest ev :
  isConsole ev = true -> isCompletionRequest ev = false.
Proof. destruct ev; cbn; (discriminate || reflexivity). Qed.

Lemma console_not_writeFile ev : isConsole ev = true -> isWriteFile ev = false.
Proof. destruct ev; cbn; (discriminate || reflexivity). Qed.

Lemma console_not_commentRequest ev :
  isConsole ev = true -> isCommentRequest ev = false.
Proof. destruct ev; cbn; (discriminate || reflexivity). Qed.

Lemma iterationEvent_not_commentRequest w file ev :
  iterationEvent w file ev -> isCommentRequest ev = false.
Proof. destruct ev; cbn; (reflexivity || intros []). Qed.

(** The events of the loop: each belongs to the iteration of one of the
    files, every file has its iteration, and no iteration asks twice. *)
Lemma loopEffects_trace w files st st' :
  loopEffects w files st st' ->
  exists evs,
    trace st' = trace st ++ evs /\
    Forall (fun ev => exists file, In file files /\ iterationEvent w file ev) evs /\
    (forall file, In file files -> In (startLog w file) evs) /\
    List.length (filter isCompletionRequest evs) <= List.length files /\
    List.length (filter isWriteFile evs) <= List.length files.
Proof.
  induction 1 as [st|file files st st1 st2 Hstep _ IH].
  - exists []. rewrite app_nil_r. repeat split;
      [constructor | intros ? [] | cbn; lia | cbn; lia].
  - destruct Hstep as (evs & success & failure & -> & Hevs & Hai & Hwrite & _).
    destruct IH as (evs' & Htrace & Hevs' & Hstart & Hai' & Hwrite').
    cbn [trace] in Htrace.
    exists ((startLog w file :: evs) ++ evs').
    split; [now rewrite Htrace, <- app_assoc|].
    split; [|split; [|split]].
    + apply Forall_app. split.
      * constructor.
        -- exists file. split; [now left|].
           apply console_iterationEvent, startLog_console.
        -- revert Hevs. apply Forall_impl. intros ev Hev.
           exists file. split; [now left | exact Hev].
      * revert Hevs'. apply Forall_impl. intros ev (f & Hf & Hev).
        exists f. split; [now right | exact Hev].
    + intros f [<-|Hf].
      * now left.
      * apply in_or_app. right. now apply Hstart.
    + rewrite filter_app, length_app.
      rewrite (console_filtered _ _ console_not_completionRequest (startLog_console w file)).
      cbn [List.length]. lia.
    + rewrite filter_app, length_app.
      rewrite (console_filtered _ _ console_not_writeFile (startLog_console w file)).
      cbn [List.length]. lia.
Qed.

Lemma attached_app l1 l2 : attached l1 -> attached l2 -> attached (l1 ++ l2).
Proof.
  intros H1 H2. induction H1; cbn [app]; try constructor; assumption.
Qed.

Lemma iterationLines_attached file success failure :
  iterationLines file success failure -> attached success.
Proof.
  intros [[-> _]|[_ (entry & [->| ->] & [->|(c & diff & ->)])]];
    repeat first [ apply attached_nil | apply attached_AI_diff
                 | apply attached_ours_diff | apply attached_AI
                 | apply attached_ours ].
Qed.

Lemma loopEffects_attached w files st st' :
  loopEffects w files st st' ->
  attached (successComment st) -> attached (successComment st').
Proof.
  induction 1 as [st|file files st st1 st2 Hstep _ IH]; [tauto|].
  intros Hinv. apply IH.
  destruct Hstep as (evs & success & failure & -> & _ & _ & _ & Hlines).
  cbn [successComment]. apply attached_app; [assumption|].
  now apply (iterationLines_attached file success failure).
Qed.

(** The loop of a run, with the effects of its iterations. *)
Lemma run_loop_effects w :
  Main.credentialMissing w = false ->
  detected w <> [] ->
  exists st1 r levs evs,
    loopEffects w (detected w) (loopStart w) st1 /\
    loopSteps w (detected w) (loopStart w) st1 /\
    trace st1 = detectorEvents w ++ foundLog (detected w) :: levs /\
    Forall (fun ev => exists file, In file (detected w) /\ iterationEvent w file ev)
      levs /\
    (forall file, In file (detected w) -> In (startLog w file) levs) /\
    List.length (filter isCompletionRequest levs) <= List.length (detected w) /\
    List.length (filter isWriteFile levs) <= List.length (detected w) /\
    Main.commitStep w st1 = (Ok r, addTrace evs st1) /\
    (evs = [] \/
     exists logs, evs = ExecSync Main.commitCommand :: logs /\
                  Forall (fun ev => isConsole ev = true) logs) /\
    Main.script w =
    (0%Z,
     {| trace := trace st1 ++ evs ++
                 [commentRequest w st1; postedLog w (addTrace evs st1)];
        successComment := successComment st1;
        failureComment := failureComment st1 |}).
Proof.
  intros Hcred Hfiles.
  destruct (script_with_conflicts w Hcred Hfiles)
    as (st1 & r & levs & evs & Hloop & Hsteps & Htrace & _ & _ & Hcommit
        & Hnone & Hsome & Hscript).
  destruct (loop_effects w (detected w) (loopStart w)) as (st1' & Hloop' & Heffects).
  rewrite Hloop in Hloop'. injection Hloop' as <-.
  destruct (loopEffects_trace _ _ _ _ Heffects)
    as (levs' & Htrace' & Hevs & Hstart & Hai & Hwrite).
  assert (levs' = levs) as ->.
  { rewrite Htrace in Htrace'. unfold loopStart, addTrace, initial in Htrace'.
    cbn [trace app] in Htrace'.
    change (foundLog (detected w) :: levs) with ([foundLog (detected w)] ++ levs)
      in Htrace'.
    rewrite app_assoc in Htrace'. now apply app_inv_head in Htrace'. }
  exists st1, r, levs, evs.
  repeat (split; [assumption|]).
  split; [|exact Hscript].
  destruct (successComment st1) as [|l ls] eqn:E.
  - left. now apply Hnone.
  - right. apply Hsome. discriminate.
Qed.

(** ** What a whole run does *)

(** X8. A run that found conflicts goes through four phases in this
    order: the detector and its line on the console; the iterations, whose
    events each belong to one detected file; the commit, if any, with the
    error of its command; the comment request, followed by one line on the
    console.  Nothing leaves the process after the comment request. *)
Theorem run_phases w :
  Main.credentialMissing w = false ->
  detected w <> [] ->
  exists levs cevs last,
    trace (snd (Main.script w)) =
    detectorEvents w ++ foundLog (detected w) :: levs ++ cevs ++
    [commentRequest w (snd (Main.script w)); last] /\
    Forall (fun ev => exists file, In file (detected w) /\ iterationEvent w file ev)
      levs /\
    (cevs = [] \/
     exists logs, cevs = ExecSync Main.commitCommand :: logs /\
                  Forall (fun ev => isConsole ev = true) logs) /\
    isConsole last = true.
Proof.
  intros Hcred Hfiles.
  destruct (run_loop_effects w Hcred Hfiles)
    as (st1 & r & levs & evs & _ & _ & Htrace & Hevs & _ & _ & _ & _ & Hcommit & ->).
  exists levs, evs, (postedLog w (addTrace evs st1)).
  cbn [snd trace]. rewrite Htrace.
  split; [now rewrite <- app_assoc|].
  split; [exact Hevs|]. split; [exact Hcommit|]. apply postedLog_console.
Qed.

Lemma run_phases_witness :
  exists levs cevs last,
    trace (snd (Main.script Worlds.twoFilesNoAI)) =
    detectorEvents Worlds.twoFilesNoAI ++
    foundLog (detected Worlds.twoFilesNoAI) :: levs ++ cevs ++
    [commentRequest Worlds.twoFilesNoAI (snd (Main.script Worlds.twoFilesNoAI)); last].
Proof.
  assert (detected Worlds.twoFilesNoAI <> []) as H by (vm_compute; discriminate).
  destruct (run_phases Worlds.twoFilesNoAI eq_refl H) as (levs & cevs & last & Ht & _).
  exists levs, cevs, last. exact Ht.
Defined.






(** X10. Past the credential check every detected file gets its
    iteration, whatever happened to the files before it: the first line of
    the iteration of each detected file is in the trace. *)
Theorem every_file_is_attempted w :
  Main.credentialMissing w = false ->
  forall file, In file (detected w) ->
    In (startLog w file) (trace (snd (Main.script w))).
Proof.
  intros Hcred file Hin.
  assert (detected w <> []) as Hsome by (intros H; rewrite H in Hin; exact Hin).
  destruct (run_loop_effects w Hcred Hsome)
    as (st1 & r & levs & evs & _ & _ & Htrace & _ & Hstart & _ & _ & _ & _ & ->).
  cbn [snd trace]. rewrite Htrace.
  apply in_or_app. left. apply in_or_app. right. right. now apply Hstart.
Qed.

Lemma every_file_is_attempted_witness :
  In (startLog Worlds.completionRejected (lit "c.txt"))
     (trace (snd (Main.script Worlds.completionRejected))).
Proof.
  apply (every_file_is_attempted Worlds.completionRejected eq_refl).
  vm_compute. now left.
Defined.

Lemma filter_count_none (f : Event -> bool) evs :
  Forall (fun ev => f ev = false) evs -> List.length (filter f evs) = 0.
Proof. intros H. now rewrite (filter_none f evs H). Qed.

Lemma loopEffects_blocks w files st st' :
  loopEffects w files st st' ->
  exists blocks,
    trace st' = trace st ++ List.concat blocks /\
    Forall2 (iterationBlock w) files blocks.
Proof.
  induction 1 as [st|file files st st1 st2 Hstep _ IH].
  - exists []. split; [cbn; now rewrite app_nil_r | constructor].
  - destruct Hstep as (evs & success & failure & -> & Hevs & Hai & Hwrite & _).
    destruct IH as (blocks & Htrace & Hblocks). cbn [trace] in Htrace.
    exists ((startLog w file :: evs) :: blocks).
    split; [cbn [List.concat]; now rewrite Htrace, <- app_assoc|].
    constructor; [|exact Hblocks].
    exists evs. repeat split; assumption.
Qed.

Lemma console_outside ev :
  isConsole ev = true -> isCompletionRequest ev = false /\ isWriteFile ev = false.
Proof. destruct ev; cbn; (discriminate || now split). Qed.

Lemma execSync_outside command :
  isCompletionRequest (ExecSync command) = false /\ isWriteFile (ExecSync command) = false.
Proof. now split. Qed.

Lemma detectorEvents_outside w :
  Forall (fun ev => isCompletionRequest ev = false /\ isWriteFile ev = false)
    (detectorEvents w).
Proof.
  unfold detectorEvents. destruct (shell w [] Main.listCommand);
    repeat constructor.
Qed.

Lemma call_totals w :
  List.length (filter isCompletionRequest (trace (snd (Main.script w)))) <=
    List.length (detected w) /\
  List.length (filter isWriteFile (trace (snd (Main.script w)))) <=
    List.length (detected w) /\
  List.length (filter isCommentRequest (trace (snd (Main.script w)))) <= 1.
Proof.
  destruct (Main.credentialMissing w) eqn:Hcred.
  - rewrite script_without_credential by assumption. cbn. lia.
  - destruct (detected w) as [|file0 files] eqn:Hfiles.
    + rewrite script_without_conflicts by assumption.
      unfold addTrace, initial; cbn [snd trace app].
      unfold detectorEvents. destruct (shell w [] Main.listCommand); cbn; lia.
    + assert (detected w <> []) as Hsome by congruence.
      destruct (run_loop_effects w Hcred Hsome)
        as (st1 & r & levs & evs & _ & _ & Htrace & Hevs & _ & Hai & Hwrite & _
            & Hcommit & ->).
      rewrite Hfiles in Hai, Hwrite.
      cbn [snd trace]. rewrite Htrace.
      assert (forall f : Event -> bool,
                 (forall ev, isConsole ev = true -> f ev = false) ->
                 (forall c, f (ExecSync c) = false) ->
                 List.length (filter f ((detectorEvents w ++ foundLog (detected w) :: levs)
                                        ++ evs ++
                                        [commentRequest w st1;
                                         postedLog w (addTrace evs st1)])) =
                 List.length (filter f levs) +
                 (if f (commentRequest w st1) then 1 else 0)) as Hcount.
      { intros f Hconsole Hexec. rewrite !filter_app, !length_app.
        assert (List.length (filter f (detectorEvents w)) = 0) as ->.
        { apply filter_count_none. unfold detectorEvents.
          destruct (shell w [] Main.listCommand); repeat constructor;
            (apply Hexec || now apply Hconsole). }
        assert (List.length (filter f evs) = 0) as ->.
        { apply filter_count_none.
          destruct Hcommit as [->|(logs & -> & Hlogs)]; [constructor|].
          constructor; [apply Hexec|].
          revert Hlogs. apply Forall_impl. apply Hconsole. }
        cbn [filter]. rewrite (Hconsole (foundLog (detected w)) eq_refl).
        rewrite (Hconsole _ (postedLog_console w (addTrace evs st1))).
        destruct (f (commentRequest w st1)); cbn [List.length]; lia. }
      rewrite (Hcount _ console_not_completionRequest (fun _ => eq_refl)).
      rewrite (Hcount _ console_not_writeFile (fun _ => eq_refl)).
      rewrite (Hcount _ console_not_commentRequest (fun _ => eq_refl)).
      assert (List.length (filter isCommentRequest levs) = 0) as ->.
      { apply filter_count_none. revert Hevs. apply Forall_impl.
        intros ev (file & _ & Hev). now apply (iterationEvent_not_commentRequest w file). }
      cbn [List.length] in Hai, Hwrite. cbn. lia.
Qed.

(** X11. No call is repeated.  Past the credential check the trace of a
    run is some events, then one block of events per detected file, in the
    detector's order, then some events: the block of a file starts with the
    first line of its iteration, holds events of that file only, and in it
    at most one completion request and at most one write; no completion
    request and no write occurs outside the blocks.  In every run the
    completion requests and the writes are therefore at most as many as the
    detected files, and at most one comment request is sent. *)
Theorem no_call_is_retried w :
  List.length (filter isCompletionRequest (trace (snd (Main.script w)))) <=
    List.length (detected w) /\
  List.length (filter isWriteFile (trace (snd (Main.script w)))) <=
    List.length (detected w) /\
  List.length (filter isCommentRequest (trace (snd (Main.script w)))) <= 1 /\
  (Main.credentialMissing w = false ->
   exists pre blocks post,
     trace (snd (Main.script w)) = pre ++ List.concat blocks ++ post /\
     Forall2 (iterationBlock w) (detected w) blocks /\
     Forall (fun ev => isCompletionRequest ev = false /\ isWriteFile ev = false)
       (pre ++ post)).
Proof.
  destruct (call_totals w) as (Hai & Hwrite & Hposts).
  split; [exact Hai|]. split; [exact Hwrite|]. split; [exact Hposts|].
  intros Hcred. destruct (detected w) as [|file0 files] eqn:Hfiles.
  - rewrite script_without_conflicts by assumption.
    exists (detectorEvents w ++ [ConsoleLog (lit "No conflicts found.")]), [], [].
    unfold addTrace, initial; cbn [snd trace app List.concat].
    split; [now rewrite !app_nil_r|]. split; [constructor|].
    rewrite app_nil_r. apply Forall_app. split; [apply detectorEvents_outside|].
    repeat constructor.
  - assert (detected w <> []) as Hsome by congruence.
    destruct (run_loop_effects w Hcred Hsome)
      as (st1 & r & levs & evs & Heffects & _ & _ & _ & _ & _ & _ & _ & Hcommit & ->).
    rewrite Hfiles in Heffects.
    destruct (loopEffects_blocks _ _ _ _ Heffects) as (blocks & Htrace & Hblocks).
    exists (detectorEvents w ++ [foundLog (detected w)]), blocks,
      (evs ++ [commentRequest w st1; postedLog w (addTrace evs st1)]).
    cbn [snd trace]. rewrite Htrace.
    unfold loopStart, addTrace, initial; cbn [trace app].
    split; [now rewrite <- !app_assoc|]. split; [exact Hblocks|].
    repeat (apply Forall_app; split).
    + apply detectorEvents_outside.
    + repeat constructor.
    + destruct Hcommit as [->|(logs & -> & Hlogs)]; [constructor|].
      constructor; [apply execSync_outside|].
      revert Hlogs. apply Forall_impl. apply console_outside.
    + constructor; [now split|].
      constructor; [apply console_outside, postedLog_console | constructor].
Qed.

Lemma no_call_is_retried_witness :
  Main.credentialMissing MoreWorlds.commitRefused = false /\
  exists pre blocks post,
    trace (snd (Main.script MoreWorlds.commitRefused)) =
    pre ++ List.concat blocks ++ post /\
    Forall2 (iterationBlock MoreWorlds.commitRefused) [lit "a.txt"; lit "b.txt"] blocks.
Proof.
  split; [reflexivity|].
  destruct (proj2 (proj2 (proj2 (no_call_is_retried MoreWorlds.commitRefused))) eq_refl)
    as (pre & blocks & post & Htrace & Hblocks & _).
  exists pre, blocks, post. split; [exact Htrace | exact Hblocks].
Defined.

(** ** The report *)

Lemma loop_order w files st st' :
  loopSteps w files st st' ->
  exists resolved failed,
    entries (successComment st') = entries (successComment st) ++ resolved /\
    entries (failureComment st') = entries (failureComment st) ++ failed /\
    Interleave resolved failed files.
Proof.
  induction 1 as [st|file files r st st1 st2 Hstep _ IH].
  - exists [], []. rewrite !app_nil_r. repeat split; constructor.
  - destruct Hstep as (evs & diff & -> & Hdiff & _).
    destruct IH as (resolved & failed & Hs & Hf & Hmix).
    cbn [successComment failureComment] in Hs, Hf.
    rewrite entries_app, <- app_assoc in Hs, Hf.
    assert (entries diff = []) as Hnone by (destruct Hdiff as [->|[d ->]]; reflexivity).
    destruct r as [| |msg]; cbn in Hs, Hf; rewrite ?Hnone in Hs.
    + exists (file :: resolved), failed. repeat split; try assumption. now constructor.
    + exists (file :: resolved), failed. repeat split; try assumption. now constructor.
    + exists resolved, (file :: failed). repeat split; try assumption. now constructor.
Qed.

(** X12. The two comments keep the order of the detector: past the
    credential check, the files of the success comment and the files of the
    failure comment, each read in order, shuffle together into the sequence
    the detector returned. *)
Theorem report_keeps_detector_order w :
  Main.credentialMissing w = false ->
  Interleave (entries (successComment (snd (Main.script w))))
             (entries (failureComment (snd (Main.script w))))
             (detected w).
Proof.
  intros Hcred. destruct (detected w) as [|file0 files] eqn:Hfiles.
  - rewrite script_without_conflicts by assumption. constructor.
  - destruct (script_with_conflicts w Hcred)
      as (st1 & r & levs & evs & _ & Hsteps & _ & _ & _ & _ & _ & _ & ->);
      [congruence|].
    rewrite Hfiles in Hsteps. cbn [snd successComment failureComment].
    destruct (loop_order _ _ _ _ Hsteps) as (resolved & failed & Hs & Hf & Hmix).
    cbn in Hs, Hf. now rewrite Hs, Hf.
Qed.

Lemma report_keeps_detector_order_witness :
  Interleave (entries (successComment (snd (Main.script Worlds.twoFilesNoAI))))
             (entries (failureComment (snd (Main.script Worlds.twoFilesNoAI))))
             [lit "a.txt"; lit "b.txt"].
Proof.
  exact (report_keeps_detector_order Worlds.twoFilesNoAI eq_refl).
Defined.

Lemma loop_without_ai_order w files st st' :
  loopSteps w files st st' ->
  Main.USE_AI w = false ->
  entries (successComment st') = entries (successComment st) ++ files /\
  failureComment st' = failureComment st.
Proof.
  induction 1 as [st|file files r st st1 st2 Hstep _ IH]; intros Hoff.
  - now rewrite app_nil_r.
  - destruct (IH Hoff) as (Hs & Hf).
    destruct Hstep as (evs & diff & -> & Hdiff & _ & Hai & _).
    destruct (Hai Hoff) as [-> _]. cbn in Hs, Hf.
    rewrite Hs, Hf, entries_app, app_nil_r, <- app_assoc. split; [|reflexivity].
    destruct Hdiff as [->|[d ->]]; reflexivity.
Qed.

(** X13. With AI assistance off a run never reports a failure: the
    failure comment stays empty and the success comment lists the detected
    files in the detector's order, whatever git answers to the commands of
    the fallback; the run ends with status 0. *)
Theorem without_ai_every_file_is_a_success w :
  Main.USE_AI w = false ->
  failureComment (snd (Main.script w)) = [] /\
  entries (successComment (snd (Main.script w))) = detected w /\
  fst (Main.script w) = 0%Z.
Proof.
  intros Hoff.
  assert (Main.credentialMissing w = false) as Hcred
    by (unfold Main.credentialMissing; now rewrite Hoff).
  destruct (detected w) as [|file0 files] eqn:Hfiles.
  - rewrite script_without_conflicts by assumption. repeat split.
  - destruct (script_with_conflicts w Hcred)
      as (st1 & r & levs & evs & _ & Hsteps & _ & _ & _ & _ & _ & _ & ->);
      [congruence|].
    rewrite Hfiles in Hsteps. cbn [fst snd successComment failureComment].
    destruct (loop_without_ai_order _ _ _ _ Hsteps Hoff) as (Hs & Hf).
    repeat split; assumption.
Qed.

Lemma without_ai_every_file_is_a_success_witness :
  Main.USE_AI MoreWorlds.onlyListingWorks = false /\
  failureComment (snd (Main.script MoreWorlds.onlyListingWorks)) = [] /\
  entries (successComment (snd (Main.script MoreWorlds.onlyListingWorks))) =
    [lit "a.txt"].
Proof.
  split; [reflexivity|].
  destruct (without_ai_every_file_is_a_success MoreWorlds.onlyListingWorks eq_refl)
    as (Hf & Hs & _).
  split; [exact Hf | exact Hs].
Defined.

(** X14. In the final success comment every diff block directly follows
    the success entry of the same file and holds a diff that is not empty;
    the comment holds nothing but success entries and such blocks. *)
Theorem diff_blocks_follow_their_entry w :
  attached (successComment (snd (Main.script w))).
Proof.
  destruct (Main.credentialMissing w) eqn:Hcred.
  - rewrite script_without_credential by assumption. constructor.
  - destruct (detected w) as [|file0 files] eqn:Hfiles.
    + rewrite script_without_conflicts by assumption. constructor.
    + assert (detected w <> []) as Hsome by congruence.
      destruct (run_loop_effects w Hcred Hsome)
        as (st1 & r & levs & evs & Heffects & _ & _ & _ & _ & _ & _ & _ & _ & ->).
      cbn [snd successComment].
      apply (loopEffects_attached _ _ _ _ Heffects). constructor.
Qed.

(** X15. The exit status of the script is 1 when AI assistance is on
    without a key and 0 in every other run: no failure of a command, of the
    file system or of a request makes the process fail. *)
Theorem exit_status w :
  fst (Main.script w) = if Main.credentialMissing w then 1%Z else 0%Z.
Proof.
  destruct (Main.credentialMissing w) eqn:Hcred.
  - now rewrite script_without_credential.
  - destruct (detected w) as [|file0 files] eqn:Hfiles.
    + now rewrite script_without_conflicts.
    + destruct (script_with_conflicts w Hcred)
        as (st1 & r & levs & evs & _ & _ & _ & _ & _ & _ & _ & _ & ->);
        [congruence | reflexivity].
Qed.

(** ** The AI path of an iteration *)

Ltac flatten_trace := rewrite <- ?app_assoc; cbn [app].

(** X16. With AI assistance on, when the file is read, the completion
    answers with a text that is not empty and the write succeeds, the
    iteration writes exactly that text to the file, whatever it holds, runs
    [git add] on the file and lists it as resolved with AI, also when [git
    add] fails; it then only asks for the diff of the file.  No fallback is
    attempted. *)
Theorem ai_text_is_written_as_it_comes w file st content c text rest :
  Main.USE_AI w = true ->
  fileRead w (trace st ++ [attemptLog file]) file = inr content ->
  completions w (trace st ++ [attemptLog file; ReadFile file])
    (Main.completionPrompt content) = Choices (Some (c :: text) :: rest) ->
  fileWrite w
    (trace st ++
     [attemptLog file; ReadFile file;
      CompletionRequest (Main.completionAuthorization w) (Main.completionPrompt content)])
    file (c :: text) = None ->
  exists evs diff,
    Main.resolveFile w file st =
    (Ok tt,
     {| trace := trace st ++
                 [attemptLog file; ReadFile file;
                  CompletionRequest (Main.completionAuthorization w)
                    (Main.completionPrompt content);
                  WriteFile file (c :: text);
                  ExecSync (Main.gitAdd file)] ++ evs;
        successComment := successComment st ++ ResolvedAI file :: diff;
        failureComment := failureComment st |}) /\
    Forall (fun ev => isConsole ev = true \/ ev = ExecSync (diffCommand file)) evs /\
    (diff = [] \/ exists d, diff = [DiffBlock file d]).
Proof.
  intros Hai Hread Hanswer Hwrite.
  unfold Main.resolveFile. rewrite Hai. unfold_script.
  fold (attemptLog file). rewrite Hread. cbn. flatten_trace. rewrite Hanswer.
  unfold_script. flatten_trace. rewrite Hwrite.
  unfold_script; repeat (step_world; unfold_script); norm_state;
    eexists; eexists;
    (split; [reflexivity|]);
    (split; [repeat (apply Forall_cons; [first [left; reflexivity | right; reflexivity]|]);
             apply Forall_nil|]);
    first [left; reflexivity | right; eexists; reflexivity].
Qed.

Lemma ai_text_is_written_as_it_comes_witness :
  Main.USE_AI MoreWorlds.completionAnswers = true /\
  In (WriteFile (lit "c.txt") (lit "merged"))
     (trace (snd (Main.resolveFile MoreWorlds.completionAnswers (lit "c.txt") initial))).
Proof.
  split; [reflexivity|].
  destruct (ai_text_is_written_as_it_comes MoreWorlds.completionAnswers (lit "c.txt")
              initial Worlds.conflictMarkers 109%N (lit "erged") []
              eq_refl eq_refl eq_refl eq_refl)
    as (evs & diff & -> & _).
  cbn [snd trace initial app]. right. right. right. now left.
Defined.

(** X17. With AI assistance on, the three other errors of the AI path
    end the iteration in the [catch]: a file that cannot be read (no
    completion is then asked for), a completion without any choice, and a
    text that cannot be written.  Each time the error is printed, the file
    is listed in the failure comment with the message of the error, and no
    git command is run on it. *)
Theorem ai_errors_are_failures w file st :
  Main.USE_AI w = true ->
  (forall e,
     fileRead w (trace st ++ [attemptLog file]) file = inl e ->
     Main.resolveFile w file st =
     (Ok tt,
      {| trace := trace st ++ [attemptLog file; ReadFile file; fileError file e];
         successComment := successComment st;
         failureComment := failureComment st ++ [FailedError file (message e)] |})) /\
  (forall content,
     fileRead w (trace st ++ [attemptLog file]) file = inr content ->
     completions w (trace st ++ [attemptLog file; ReadFile file])
       (Main.completionPrompt content) = Choices [] ->
     Main.resolveFile w file st =
     (Ok tt,
      {| trace := trace st ++
                  [attemptLog file; ReadFile file;
                   CompletionRequest (Main.completionAuthorization w)
                     (Main.completionPrompt content);
                   fileError file
                     (TypeError "Cannot read properties of undefined (reading 'text')")];
         successComment := successComment st;
         failureComment :=
           failureComment st ++
           [FailedError file
              (lit "Cannot read properties of undefined (reading 'text')")] |})) /\
  (forall content c text rest e,
     fileRead w (trace st ++ [attemptLog file]) file = inr content ->
     completions w (trace st ++ [attemptLog file; ReadFile file])
       (Main.completionPrompt content) = Choices (Some (c :: text) :: rest) ->
     fileWrite w
       (trace st ++
        [attemptLog file; ReadFile file;
         CompletionRequest (Main.completionAuthorization w)
           (Main.completionPrompt content)])
       file (c :: text) = Some e ->
     Main.resolveFile w file st =
     (Ok tt,
      {| trace := trace st ++
                  [attemptLog file; ReadFile file;
                   CompletionRequest (Main.completionAuthorization w)
                     (Main.completionPrompt content);
                   WriteFile file (c :: text);
                   fileError file e];
         successComment := successComment st;
         failureComment := failureComment st ++ [FailedError file (message e)] |})).
Proof.
  intros Hai. split; [|split].
  - intros e Hread.
    unfold Main.resolveFile. rewrite Hai. unfold_script.
    fold (attemptLog file). rewrite Hread. cbn. norm_state. reflexivity.
  - intros content Hread Hanswer.
    unfold Main.resolveFile. rewrite Hai. unfold_script.
    fold (attemptLog file). rewrite Hread. cbn. flatten_trace. rewrite Hanswer.
    cbn. norm_state. reflexivity.
  - intros content c text rest e Hread Hanswer Hwrite.
    unfold Main.resolveFile. rewrite Hai. unfold_script.
    fold (attemptLog file). rewrite Hread. cbn. flatten_trace. rewrite Hanswer.
    unfold_script. flatten_trace. rewrite Hwrite. cbn. norm_state. reflexivity.
Qed.

Lemma ai_errors_are_failures_witness :
  Main.USE_AI MoreWorlds.readOnlyTree = true /\
  failureComment
    (snd (Main.resolveFile MoreWorlds.readOnlyTree (lit "c.txt") initial)) =
  [FailedError (lit "c.txt") (lit "Command failed")].
Proof.
  split; [reflexivity|].
  rewrite (proj2 (proj2 (ai_errors_are_failures MoreWorlds.readOnlyTree (lit "c.txt")
                           initial eq_refl))
             Worlds.conflictMarkers 109%N (lit "erged") [] Worlds.commandFailed
             eq_refl eq_refl eq_refl).
  reflexivity.
Defined.

(** ** The helpers of the variant *)

(** X18. Neither request of the variant can be sent.  Its
    [resolveWithAI] throws in every world after reading the file, on the
    read or on the undeclared [OPENAI_API_KEY] of the headers; its
    [postCommentToPR] catches the ReferenceError of the undeclared
    [PR_NUMBER], prints it and returns. *)
Theorem extra_requests_are_never_sent w :
  (forall file st,
     exists e,
       Extra.resolveWithAI w file st = (Throw e, addTrace [ReadFile file] st) /\
       match fileRead w (trace st) file with
       | inl e' => e = e'
       | inr _ => e = ReferenceError "OPENAI_API_KEY"
       end) /\
  (forall body st,
     Extra.postCommentToPR w body st =
     (Ok tt,
      addTrace [ConsoleError (lit "Error postig comment to PR:")
                  (Some (ReferenceError "PR_NUMBER"))] st)).
Proof.
  split.
  - intros file st. unfold Extra.resolveWithAI, bind, readFileSync.
    destruct (fileRead w (trace st) file) as [e|content];
      eexists; (split; [reflexivity | reflexivity]).
  - intros body st. reflexivity.
Qed.
